(** * Powerful numbers: a verification of [ispowerful] and its command line

    The development embeds two C sources of the [powerful] directory:

    - [ispowerful.c]: the trial-division test [ispowerful], on
      [unsigned long int] (64 bits, the LP64 data model);
    - [main.c]: the command-line entry point, down to the value it hands
      to [ispowerful] and its exit status, together with the C library
      function [strtol] that it calls with base 0.

    The tables of [test.c] are run as examples.

    Machine integers are [Z] with the wrap-around written out.  Loops carry
    a fuel; running out of it is a result of its own, and so is the
    division by zero that [number % divisor] would be in C. *)

From Stdlib Require Import ZArith Zdivisibility Znumtheory Zpow_facts.
From Stdlib Require Import List Lia Bool String Ascii.
From Stdlib Require Zmod.
Import ListNotations.
Local Open Scope Z_scope.

(* ================================================================= *)
(** ** Results of a run *)

Inductive outcome (A : Type) : Type :=
| Done (a : A)
| DivByZero
| OutOfFuel.

Arguments Done {A} a.
Arguments DivByZero {A}.
Arguments OutOfFuel {A}.

(* ================================================================= *)
(** ** [unsigned long int] *)

Module ULong.

Definition bits : Z := 64.
Definition modulus : Z := 2 ^ bits.
Definition max : Z := modulus - 1.

(** The value an arithmetic result has once stored in an
    [unsigned long int]. *)
Definition wrap (x : Z) : Z := x mod modulus.

End ULong.

(* ================================================================= *)
(** ** ispowerful.c *)

Module IsPowerful.

Import ULong.

(** What a run of the wheel loop does, in order: [Compare d r] is one
    evaluation of [divisor * divisor <= number] with [divisor = d] and
    [number = r]; [Trial d r] is the start of one
    [while (number % divisor == 0)] loop. *)
Inductive event : Type :=
| Compare (divisor number : Z)
| Trial (divisor number : Z).

(** A computation of the wheel phase: its events and its result. *)
Definition logged (A : Type) : Type := (list event * outcome A)%type.

Definition ret {A} (a : A) : logged A := ([], Done a).

Definition tell (e : event) : logged unit := ([e], Done tt).

Definition lift {A} (o : outcome A) : logged A := ([], o).

Definition bind {A B} (m : logged A) (k : A -> logged B) : logged B :=
  match m with
  | (l, Done a) => let (l', o) := k a in (l ++ l', o)
  | (l, DivByZero) => (l, DivByZero)
  | (l, OutOfFuel) => (l, OutOfFuel)
  end.

Notation "x <- m ;; k" := (bind m (fun x => k))
  (at level 61, m at next level, right associativity).
Notation "' p <- m ;; k" := (bind m (fun x => let 'p := x in k))
  (at level 61, p pattern, m at next level, right associativity).

(** [while ((number & 1) == 0) { number >>= 1; ++exponent; }] *)
Fixpoint strip2 (fuel : nat) (number exponent : Z) : outcome (Z * Z) :=
  match fuel with
  | O => OutOfFuel
  | S fuel =>
      if Z.land number 1 =? 0
      then strip2 fuel (Z.shiftr number 1) (wrap (exponent + 1))
      else Done (number, exponent)
  end.

(** [while (number % divisor == 0) { number /= divisor; ++exponent; }] *)
Fixpoint strip (fuel : nat) (divisor number exponent : Z)
  : outcome (Z * Z) :=
  match fuel with
  | O => OutOfFuel
  | S fuel =>
      if divisor =? 0 then DivByZero
      else if number mod divisor =? 0
      then strip fuel divisor (number / divisor) (wrap (exponent + 1))
      else Done (number, exponent)
  end.

(** How one pass through the body of the [for] loop ends. *)
Inductive pass : Type :=
| Next (divisor number : Z)
| Return (value : Z).

(** The body of the [for] loop together with its [divisor += 4]. *)
Definition wheel_body (inner : nat) (divisor number : Z) : logged pass :=
  _ <- tell (Trial divisor number) ;;
  '(number, exponent) <- lift (strip inner divisor number 0) ;;
  if exponent =? 1 then ret (Return 0)
  else
    let divisor := wrap (divisor + 2) in
    _ <- tell (Trial divisor number) ;;
    '(number, exponent) <- lift (strip inner divisor number 0) ;;
    if exponent =? 1 then ret (Return 0)
    else ret (Next (wrap (divisor + 4)) number).

(** [for (divisor = 5; divisor * divisor <= number; divisor += 4) ...]
    followed by [if (number == 1) return 1; return 0;]. *)
Fixpoint wheel (inner fuel : nat) (divisor number : Z) : logged Z :=
  match fuel with
  | O => lift OutOfFuel
  | S fuel =>
      _ <- tell (Compare divisor number) ;;
      if wrap (divisor * divisor) <=? number
      then
        p <- wheel_body inner divisor number ;;
        match p with
        | Return v => ret v
        | Next divisor number => wheel inner fuel divisor number
        end
      else if number =? 1 then ret 1 else ret 0
  end.

(** [int ispowerful(register unsigned long int number)]: every loop may
    run [fuel] times. *)
Definition ispowerful_fuel (fuel : nat) (number : Z) : logged Z :=
  if number =? 0 then ret (-1)
  else
    '(number, exponent) <- lift (strip2 fuel number 0) ;;
    if exponent =? 1 then ret 0
    else
      '(number, exponent) <- lift (strip fuel 3 number 0) ;;
      if exponent =? 1 then ret 0
      else wheel fuel fuel 5 number.

(** A number of rounds that no loop of [ispowerful] exceeds on [number]. *)
Definition fuel_for (number : Z) : nat := (Z.to_nat number + 64)%nat.

Definition ispowerful (number : Z) : logged Z :=
  ispowerful_fuel (fuel_for number) number.

(** The value returned and the events of the wheel phase. *)
Definition result {A} (m : logged A) : outcome A := snd m.
Definition trace {A} (m : logged A) : list event := fst m.

(** The divisors of the [Trial] events, in order. *)
Fixpoint tested (l : list event) : list Z :=
  match l with
  | [] => []
  | Trial d _ :: l => d :: tested l
  | Compare _ _ :: l => tested l
  end.

End IsPowerful.

(* ================================================================= *)
(** ** The notions the properties are stated with *)

Module Spec.

Import ULong IsPowerful.

(** Every prime that divides [n] divides it twice. *)
Definition powerful (n : Z) : Prop :=
  forall p, Z.prime p -> (p | n) -> (p * p | n).

(** [n] is a square times a cube. *)
Definition square_cube (n : Z) : Prop :=
  exists a b, 0 < a /\ 0 < b /\ n = a ^ 2 * b ^ 3.

(** No number from 2 up to [d], [d] excluded, divides [r]. *)
Definition nodiv (r d : Z) : Prop :=
  forall k, 2 <= k < d -> ~ (k | r).

(** The wheel modulo 6, counted from 0: 5, 7, 11, 13, 17, 19, ... *)
Definition candidate (k : nat) : Z :=
  6 * Z.of_nat (k / 2) + 5 + 2 * Z.of_nat (k mod 2).

Definition candidates (len : nat) : list Z := map candidate (seq 0 len).

(** The loop that takes out the factor 2, written with [%] and [/] as the
    comments of the source have it:
    [while (number % 2 == 0) { number /= 2; ++exponent; }]. *)
Fixpoint strip2_arith (fuel : nat) (number exponent : Z)
  : outcome (Z * Z) :=
  match fuel with
  | O => OutOfFuel
  | S fuel =>
      if number mod 2 =? 0
      then strip2_arith fuel (number / 2) (wrap (exponent + 1))
      else Done (number, exponent)
  end.

(** The wheel phase as the specification words it: every candidate, 5, 7,
    11, 13, ..., is taken only while [divisor * divisor <= number];
    [step] is what leads to the next candidate, 2 and 4 in turn.  The
    arithmetic is that of [unsigned long int], as in [wheel]. *)
Fixpoint wheel_guarded (inner fuel : nat) (divisor step number : Z)
  : outcome Z :=
  match fuel with
  | O => OutOfFuel
  | S fuel =>
      if wrap (divisor * divisor) <=? number
      then
        match strip inner divisor number 0 with
        | Done (number, exponent) =>
            if exponent =? 1 then Done 0
            else wheel_guarded inner fuel
                   (wrap (divisor + step)) (6 - step) number
        | DivByZero => DivByZero
        | OutOfFuel => OutOfFuel
        end
      else if number =? 1 then Done 1 else Done 0
  end.

(** The classification with that wheel phase, the factors 2 and 3 taken
    out first; 1, 0 and -1 as in [ispowerful]. *)
Definition classify_guarded (fuel : nat) (n : Z) : outcome Z :=
  if n =? 0 then Done (-1)
  else
    match strip fuel 2 n 0 with
    | Done (number, exponent) =>
        if exponent =? 1 then Done 0
        else
          match strip fuel 3 number 0 with
          | Done (number, exponent) =>
              if exponent =? 1 then Done 0
              else wheel_guarded fuel fuel 5 2 number
          | DivByZero => DivByZero
          | OutOfFuel => OutOfFuel
          end
    | DivByZero => DivByZero
    | OutOfFuel => OutOfFuel
    end.

(** What holds each time the loop condition of the wheel phase is
    evaluated: [d] is 5 modulo 6, nothing below it divides [r], and when
    nothing is left of the number, [d] is still small. *)
Definition head_inv (d r : Z) : Prop :=
  5 <= d /\ d mod 6 = 5 /\ 1 <= r < modulus /\ nodiv r d /\
  (r = 1 -> d <= 2 ^ 32 + 1).

(** The same for the loop that tests every candidate. *)
Definition guarded_inv (d step r : Z) : Prop :=
  (step = 2 /\ d mod 6 = 5 \/ step = 4 /\ d mod 6 = 1) /\
  5 <= d /\ 1 <= r < modulus /\ nodiv r d /\
  (r = 1 -> d <= 2 ^ 32 + 3).

(** What holds of an event of the wheel phase. *)
Definition event_ok (e : event) : Prop :=
  match e with
  | Compare d r => 5 <= d /\ 1 <= r /\ nodiv r d
  | Trial d r =>
      5 <= d /\ 1 <= r /\ nodiv r d /\
      (d mod 6 = 5 -> wrap (d * d) <= r)
  end.

(** How a pass through the body of the [for] loop ends when it starts
    from [d] and [r] and [head_inv] holds. *)
Inductive body_spec (d r : Z) : logged pass -> Prop :=
| body_first :
    ~ powerful r ->
    body_spec d r ([Trial d r], Done (Return 0))
| body_second r1 :
    ~ powerful r -> 1 <= r1 -> nodiv r1 (d + 2) ->
    body_spec d r ([Trial d r; Trial (d + 2) r1], Done (Return 0))
| body_next r1 r2 :
    1 <= r1 -> nodiv r1 (d + 2) -> head_inv (d + 6) r2 -> r2 <= r ->
    d <= r -> (powerful r <-> powerful r2) ->
    body_spec d r ([Trial d r; Trial (d + 2) r1], Done (Next (d + 6) r2)).

(** The value [v] says whether [r] is powerful. *)
Definition classified (r v : Z) : Prop :=
  v = 1 /\ powerful r \/ v = 0 /\ ~ powerful r.

(** Trial division by 2, 3, ..., for the primality of a given number. *)
Fixpoint no_divisor (count : nat) (d p : Z) : bool :=
  match count with
  | O => true
  | S count => negb (p mod d =? 0) && no_divisor count (d + 1) p
  end.

End Spec.

(* ================================================================= *)
(** ** main.c *)

Module Cli.

Import ULong IsPowerful.

Definition LONG_MAX : Z := 2 ^ 63 - 1.
Definition LONG_MIN : Z := - 2 ^ 63.
Definition ERANGE : Z := 34.
Definition EXIT_SUCCESS : Z := 0.
Definition EXIT_FAILURE : Z := 1.

(** *** [strtol] of the C library, as ISO C describes it *)

Definition isspace (c : ascii) : bool :=
  let n := Z.of_nat (nat_of_ascii c) in
  (n =? 32) || ((9 <=? n) && (n <=? 13)).

(** The value of a character as a digit, any base up to 36. *)
Definition digit_value (c : ascii) : option Z :=
  let n := Z.of_nat (nat_of_ascii c) in
  if (48 <=? n) && (n <=? 57) then Some (n - 48)
  else if (97 <=? n) && (n <=? 122) then Some (n - 87)
  else if (65 <=? n) && (n <=? 90) then Some (n - 55)
  else None.

Definition is_digit (base : Z) (c : ascii) : bool :=
  match digit_value c with
  | Some v => v <? base
  | None => false
  end.

Fixpoint skip_space (s : string) : string :=
  match s with
  | String c s' => if isspace c then skip_space s' else s
  | EmptyString => s
  end.

(** An optional sign: whether it is a minus, and what follows it. *)
Definition take_sign (s : string) : bool * string :=
  match s with
  | String "-"%char s' => (true, s')
  | String "+"%char s' => (false, s')
  | _ => (false, s)
  end.

(** Base 0: [0x] or [0X] before a hexadecimal digit is base 16, another
    leading [0] is base 8, anything else is base 10. *)
Definition take_base (s : string) : Z * string :=
  match s with
  | String "0"%char (String x (String h s')) =>
      if (Ascii.eqb x "x"%char || Ascii.eqb x "X"%char) && is_digit 16 h
      then (16, String h s')
      else (8, s)
  | String "0"%char _ => (8, s)
  | _ => (10, s)
  end.

(** The longest run of digits of the base: how many there are, their
    value after [acc], and what follows them. *)
Fixpoint take_digits (base : Z) (s : string) (count : nat) (acc : Z)
  : nat * Z * string :=
  match s with
  | String c s' =>
      match digit_value c with
      | Some v =>
          if v <? base
          then take_digits base s' (S count) (acc * base + v)
          else (count, acc, s)
      | None => (count, acc, s)
      end
  | EmptyString => (count, acc, s)
  end.

(** The number a string starts with, not yet fitted to [long int], and
    the rest of the string; [None] when it starts with no number. *)
Definition scan (nptr : string) : option (Z * string) :=
  let (minus, s) := take_sign (skip_space nptr) in
  let (base, s) := take_base s in
  match take_digits base s 0 0 with
  | (O, _, _) => None
  | (_, v, rest) => Some (if minus then - v else v, rest)
  end.

(** [strtol(nptr, NULL, 0)] where [errno] holds [errno] before the call:
    the value returned and [errno] after it. *)
Definition strtol (nptr : string) (errno : Z) : Z * Z :=
  match scan nptr with
  | None => (0, errno)
  | Some (v, _) =>
      if LONG_MAX <? v then (LONG_MAX, ERANGE)
      else if v <? LONG_MIN then (LONG_MIN, ERANGE)
      else (v, errno)
  end.

(** *** [main] *)

(** What a run writes: the usage line and the two messages go to
    [stderr], the value to [stdout]. *)
Inductive line : Type :=
| Usage (prog : string)
| TooLarge
| NotPositive
| Value (v : Z).

(** A run of [main]: what it wrote, the arguments of its calls of
    [ispowerful], and its exit status. *)
Record run : Type := mkRun {
  written : list line;
  calls : list Z;
  status : outcome Z
}.

(** [int main(int argc, char *argv[])] with [argc] the length of [argv];
    [errno] is 0 when the program starts. *)
Definition main (argv : list string) : run :=
  let argc := Z.of_nat (List.length argv) in
  let errno := 0 in
  if negb (argc =? 2)
  then mkRun [Usage (nth 0 argv EmptyString)] [] (Done EXIT_FAILURE)
  else
    let (number, errno) := strtol (nth 1 argv EmptyString) errno in
    if errno =? ERANGE
    then mkRun [TooLarge] [] (Done EXIT_FAILURE)
    else if number <? 0
    then mkRun [NotPositive] [] (Done EXIT_FAILURE)
    else
      let arg := wrap number in
      match result (ispowerful arg) with
      | Done v => mkRun [Value v] [arg] (Done EXIT_SUCCESS)
      | DivByZero => mkRun [] [arg] DivByZero
      | OutOfFuel => mkRun [] [arg] OutOfFuel
      end.

(** *** The invocations the command line is said to turn away *)






End Cli.

(* ================================================================= *)
(** ** test.c *)

Module TestC.

Import ULong IsPowerful.

(** What the test program writes: the three messages go to [stderr] with
    the table entry they are about, [TESTS PASSED] goes to [stdout].  The
    entry is written with [%ld]: it reads as the entry itself as long as
    the entry is at most [LONG_MAX]. *)
Inductive message : Type :=
| ShouldBeTrue (number : Z)
| ShouldBeFalse (number : Z)
| ShouldRaiseError (number : Z)
| TestsPassed.

(** [void assertTrue(int condition, unsigned long int number)]: [None]
    when it returns, the message when it writes it and calls
    [exit(EXIT_FAILURE)].  The test is [if (!condition)]. *)
Definition assertTrue (condition number : Z) : option message :=
  if condition =? 0 then Some (ShouldBeTrue number) else None.

(** [void assertFalse(int condition, unsigned long int number)]: the test
    is [if (condition)]. *)
Definition assertFalse (condition number : Z) : option message :=
  if negb (condition =? 0) then Some (ShouldBeFalse number) else None.

(** [void assertError(int condition, unsigned long int number)]: the test
    is [if (condition != -1)]. *)
Definition assertError (condition number : Z) : option message :=
  if negb (condition =? -1) then Some (ShouldRaiseError number) else None.

(** [for (i = 0; i < size; ++i) assert(ispowerful(table[i]), table[i]);]:
    the message of the first assertion that fails, if one does. *)
Fixpoint check_all (assert : Z -> Z -> option message) (table : list Z)
  : outcome (option message) :=
  match table with
  | [] => Done None
  | number :: table =>
      match result (ispowerful number) with
      | Done condition =>
          match assert condition number with
          | Some m => Done (Some m)
          | None => check_all assert table
          end
      | DivByZero => DivByZero
      | OutOfFuel => OutOfFuel
      end
  end.

(** A run of the test program: what it wrote and its exit status. *)
Record report : Type := mkReport {
  written : list message;
  status : outcome Z
}.

Definition failed (m : message) : report :=
  mkReport [m] (Done Cli.EXIT_FAILURE).

Definition stopped (o : outcome Z) : report := mkReport [] o.

(** The body of [int main(void)], for the three local variables
    [powerful], [notpowerful] and [invalid]. *)
Definition run_tests (powerful notpowerful : list Z) (invalid : Z)
  : report :=
  match check_all assertTrue powerful with
  | Done (Some m) => failed m
  | Done None =>
      match check_all assertFalse notpowerful with
      | Done (Some m) => failed m
      | Done None =>
          match result (ispowerful invalid) with
          | Done condition =>
              match assertError condition invalid with
              | Some m => failed m
              | None => mkReport [TestsPassed] (Done Cli.EXIT_SUCCESS)
              end
          | DivByZero => stopped DivByZero
          | OutOfFuel => stopped OutOfFuel
          end
      | DivByZero => stopped DivByZero
      | OutOfFuel => stopped OutOfFuel
      end
  | DivByZero => stopped DivByZero
  | OutOfFuel => stopped OutOfFuel
  end.

(** [unsigned long int powerful[]] *)
Definition powerful : list Z :=
  [1; 4; 8; 9; 16; 25; 27; 32; 36; 49; 64; 72; 81; 100; 108; 121; 125; 128;
   144; 169; 196; 200; 216; 225; 243; 256; 288; 289; 324; 343; 361; 392;
   400; 432; 441; 484; 500; 512; 529; 576; 625; 648; 675; 676; 729; 784;
   800; 841; 864; 900; 961; 968; 972; 1000;
   32; 841; 961; 972; 1024; 1521; 2312; 2744; 2916; 3087; 4900; 5408; 8000;
   10976; 13068; 13824; 15876; 17956; 18000; 19600; 19881; 21600; 25088;
   26244; 27556; 30375;
   2*2; 3*3; 5*5; 7*7; 101*101;
   2*2 * 3*3 * 5*5;
   2*2 * 3*3 * 5*5 * 7*7;
   2*2*2; 3*3*3; 5*5*5; 7*7*7; 101*101*101;
   2*2*2 * 3*3 * 7*7;
   2*2*2 * 3*3 * 7*7 * 11*11;
   2*2*2*2*2;
   3*3*3*3*3;
   5*5*5*5*5;
   11*11; 13*13; 17*17;
   3*3 * 7*7 * 13*13;
   227*227; 229*229].

(** [unsigned long int notpowerful[]] *)
Definition notpowerful : list Z :=
  [2; 3; 5; 7; 11; 13; 17; 19; 23; 29; 31; 37; 41; 43; 47; 53; 59; 61; 67;
   71; 73; 79; 83; 89; 97; 101; 103; 107; 109; 113; 127; 131; 137; 139;
   149; 151; 157; 163; 167; 173; 179; 181; 191; 193; 197; 199; 211; 223;
   227; 229; 233; 239; 241; 251; 257; 263; 269; 271;
   279;
   2 * 3 * 5 * 7 * 11;
   2 * 3 * 5 * 7 * 11*11;
   2*2*2 * 3*3 * 7 * 11*11;
   2*2*2 * 3*3 * 7*7 * 11;
   3*3 * 7*7 * 13*13 * 19;
   43*43 * 47 * 83*83;
   229*229 * 233].

(** [const unsigned long int invalid = 0;] *)
Definition invalid : Z := 0.

(** [int main(void)] of [test.c]. *)
Definition main : report := run_tests powerful notpowerful invalid.

End TestC.

(* ================================================================= *)
(** ** Numerals on the command line *)

Module Numeral.

(** The character of a digit from 0 to 9. *)
Definition digit_char (d : nat) : ascii := ascii_of_nat (48 + d).

(** The string of a list of digits, the first one in front. *)
Fixpoint numeral (ds : list nat) : string :=
  match ds with
  | [] => EmptyString
  | d :: ds => String (digit_char d) (numeral ds)
  end.

(** The number that the digits write in a base, after [acc]. *)
Definition value_from (base acc : Z) (ds : list nat) : Z :=
  fold_left (fun a d => a * base + Z.of_nat d) ds acc.

Definition value (base : Z) (ds : list nat) : Z := value_from base 0 ds.

End Numeral.

(* ================================================================= *)
(** ** What is said of the events of a run *)

Module Events.

Import IsPowerful.

(** The number an event carries. *)
Definition number_of (e : event) : Z :=
  match e with
  | Compare _ r => r
  | Trial _ r => r
  end.

(** The event belongs to a run that stays below [2 ^ 32]: a square that
    is compared fits an [unsigned long int], and the first candidate of a
    pair is tested only up to the square root of [bound]. *)
Definition within_root (bound : Z) (e : event) : Prop :=
  match e with
  | Compare d _ => d <= 4294967291 /\ d * d <= ULong.max
  | Trial d _ => d mod 6 = 5 -> d * d <= bound
  end.


End Events.

Import ULong IsPowerful Spec.

(* ================================================================= *)
(** ** Machine arithmetic *)

Lemma modulus_eq : modulus = 18446744073709551616.
Proof. reflexivity. Qed.

Lemma wrap_small (x : Z) : 0 <= x < modulus -> wrap x = x.
Proof. intros H. unfold wrap. now apply Z.mod_small. Qed.

(** A wrapped product that exceeds [r] comes from a product that does. *)
Lemma wrap_above (x r : Z) : 0 <= x -> r < modulus -> r < wrap x -> r < x.
Proof.
  intros Hx Hr Hw.
  destruct (Z_lt_le_dec x modulus) as [Hlt | Hge].
  - now rewrite wrap_small in Hw by lia.
  - lia.
Qed.

(* ================================================================= *)
(** ** The loops that take a factor out *)

(** Shifts and masks on the last bit are division and remainder by 2. *)
Lemma land_1_mod (n : Z) : Z.land n 1 = n mod 2.
Proof. change 1 with (Z.ones 1). now rewrite Z.land_ones by lia. Qed.

Lemma shiftr_1_div (n : Z) : Z.shiftr n 1 = n / 2.
Proof. now rewrite Z.shiftr_div_pow2 by lia. Qed.

Lemma strip2_arith_strip (fuel : nat) (n e : Z) :
  strip2_arith fuel n e = strip fuel 2 n e.
Proof.
  revert n e. induction fuel as [| fuel IH]; intros n e; simpl.
  - reflexivity.
  - destruct (n mod 2 =? 0); [apply IH | reflexivity].
Qed.

Lemma strip2_strip (fuel : nat) (n e : Z) :
  strip2 fuel n e = strip fuel 2 n e.
Proof.
  revert n e. induction fuel as [| fuel IH]; intros n e; simpl.
  - reflexivity.
  - rewrite land_1_mod, shiftr_1_div.
    destruct (n mod 2 =? 0); [apply IH | reflexivity].
Qed.

(** More fuel does not change the result of a loop that ended. *)
Lemma strip_more_fuel (fuel fuel' : nat) (d r e : Z) (x : Z * Z) :
  strip fuel d r e = Done x -> (fuel <= fuel')%nat ->
  strip fuel' d r e = Done x.
Proof.
  revert fuel' r e. induction fuel as [| fuel IH]; intros fuel' r e H Hle.
  - discriminate.
  - destruct fuel' as [| fuel']; [lia |]. simpl in *.
    destruct (d =? 0); [discriminate |].
    destruct (r mod d =? 0); [| exact H].
    apply IH; [exact H | lia].
Qed.

(** A quotient by a divisor of at least 2 loses a bit. *)
Lemma exact_div_bounds (d r b : Z) :
  2 <= d -> 1 <= r < 2 * b -> r mod d = 0 ->
  1 <= r / d < b /\ r = d * (r / d).
Proof.
  intros Hd Hr Hm.
  assert (Heq : r = d * (r / d)).
  { pose proof (Z.div_mod r d ltac:(lia)) as E. lia. }
  split; [| exact Heq].
  split; nia.
Qed.

(** With [d >= 2] and [r] of at most [k] bits, the loop ends within [k]
    rounds: it takes [d] out [j] times, and the exponent does not wrap. *)
Lemma strip_spec (k : nat) :
  forall (fuel : nat) (d r e : Z),
    2 <= d -> 1 <= r < 2 ^ Z.of_nat k -> (k < fuel)%nat ->
    0 <= e -> e + Z.of_nat k < modulus ->
    exists r' j,
      strip fuel d r e = Done (r', e + j) /\ 0 <= j <= Z.of_nat k /\
      r = d ^ j * r' /\ 1 <= r' /\ r' mod d <> 0.
Proof.
  induction k as [| k IH]; intros fuel d r e Hd Hr Hf He Hek.
  - simpl in Hr. lia.
  - destruct fuel as [| fuel]; [lia |]. simpl.
    destruct (Z.eqb_spec d 0) as [-> | _]; [lia |].
    destruct (Z.eqb_spec (r mod d) 0) as [Hm | Hm].
    + rewrite Nat2Z.inj_succ, Z.pow_succ_r in Hr by lia.
      destruct (exact_div_bounds d r _ Hd Hr Hm) as [Hq Heq].
      rewrite wrap_small by lia.
      destruct (IH fuel d (r / d) (e + 1) Hd Hq ltac:(lia) ltac:(lia)
                  ltac:(lia)) as (r' & j & Hs & Hj & Hrj & Hr' & Hnd).
      exists r', (j + 1). repeat split; try lia.
      * rewrite Hs. f_equal. f_equal. lia.
      * rewrite Z.pow_add_r, Z.pow_1_r by lia. rewrite Heq at 1.
        rewrite Hrj. ring.
    + exists r, 0. rewrite Z.add_0_r, Z.pow_0_r.
      repeat split; try lia.
Qed.

(** The loop on an [unsigned long int], started with exponent 0. *)
Lemma strip_ok (fuel : nat) (d r : Z) :
  2 <= d -> 1 <= r < modulus -> (64 < fuel)%nat ->
  exists r' e,
    strip fuel d r 0 = Done (r', e) /\ 0 <= e <= 64 /\
    r = d ^ e * r' /\ 1 <= r' <= r /\ r' mod d <> 0.
Proof.
  intros Hd Hr Hf.
  destruct (strip_spec 64 fuel d r 0 Hd) as (r' & j & Hs & Hj & Hrj & Hr' & Hnd).
  - exact Hr.
  - exact Hf.
  - lia.
  - rewrite modulus_eq. simpl. lia.
  - exists r', j. simpl in Hs. repeat split; try lia; try assumption.
    assert (0 < d ^ j) by (apply Z.pow_pos_nonneg; lia).
    nia.
Qed.

(* ================================================================= *)
(** ** Divisors *)

Ltac euclid := Z.to_euclidean_division_equations; lia.

Lemma mod_not_divide (d r : Z) : d <> 0 -> r mod d <> 0 -> ~ (d | r).
Proof. intros Hd Hm H. apply Hm. now apply Z.mod_divide. Qed.

Lemma nodiv_prime (d r : Z) : 2 <= d -> nodiv r d -> (d | r) -> Z.prime d.
Proof.
  intros Hd Hn Hdr. split; [lia |].
  intros k Hk Hkd. apply (Hn k); [lia |].
  now apply Z.divide_trans with d.
Qed.

Lemma nodiv_weaken (r r' d : Z) : nodiv r d -> (r' | r) -> nodiv r' d.
Proof.
  intros Hn Hr k Hk Hkr. apply (Hn k Hk).
  now apply Z.divide_trans with r'.
Qed.

Lemma nodiv_succ (r d : Z) : nodiv r d -> ~ (d | r) -> nodiv r (d + 1).
Proof.
  intros Hn Hd k Hk Hkr.
  destruct (Z.eq_dec k d) as [-> | Hne]; [now apply Hd |].
  apply (Hn k); [lia | exact Hkr].
Qed.

(** A number with a smaller factor [q >= 2] needs no test of its own. *)
Lemma nodiv_skip (r d q : Z) :
  nodiv r d -> 2 <= q < d -> (q | d) -> nodiv r (d + 1).
Proof.
  intros Hn Hq Hqd. apply nodiv_succ; [exact Hn |].
  intros Hdr. apply (Hn q Hq). now apply Z.divide_trans with d.
Qed.

Lemma nodiv_bound (r d : Z) : nodiv r d -> 1 < r -> d <= r.
Proof.
  intros Hn Hr. destruct (Z_le_gt_dec d r) as [H | H]; [exact H |].
  exfalso. apply (Hn r); [lia | apply Z.divide_refl].
Qed.

(** From [d], 5 modulo 6, the next candidate is [d + 2]. *)
Lemma nodiv_next_5 (r d : Z) :
  5 <= d -> d mod 6 = 5 -> nodiv r (d + 1) -> nodiv r (d + 2).
Proof.
  intros Hd Hm Hn.
  replace (d + 2) with (d + 1 + 1) by lia.
  apply (nodiv_skip r (d + 1) 2 Hn); [lia |].
  exists ((d + 1) / 2). euclid.
Qed.

(** From [d], 1 modulo 6, the next candidate is [d + 4]. *)
Lemma nodiv_next_1 (r d : Z) :
  5 <= d -> d mod 6 = 1 -> nodiv r (d + 1) -> nodiv r (d + 4).
Proof.
  intros Hd Hm Hn.
  replace (d + 4) with (d + 3 + 1) by lia.
  apply (nodiv_skip r (d + 3) 2); [| lia | exists ((d + 3) / 2); euclid].
  replace (d + 3) with (d + 2 + 1) by lia.
  apply (nodiv_skip r (d + 2) 3); [| lia | exists ((d + 2) / 3); euclid].
  replace (d + 2) with (d + 1 + 1) by lia.
  apply (nodiv_skip r (d + 1) 2 Hn); [lia |].
  exists ((d + 1) / 2). euclid.
Qed.

(** Nothing below [d] divides [r], and [r] is below the square of [d]:
    [r] is prime. *)
Lemma nodiv_square_prime (r d : Z) :
  0 <= d -> nodiv r d -> r < d * d -> 1 < r -> Z.prime r.
Proof.
  intros Hd Hn Hlt Hr. split; [exact Hr |].
  intros k Hk [q Hq].
  assert (Hkd : d <= k).
  { destruct (Z_le_gt_dec d k) as [H | H]; [exact H |].
    exfalso. apply (Hn k); [lia | now exists q]. }
  assert (Hq1 : 1 < q) by nia.
  assert (Hqd : d <= q).
  { destruct (Z_le_gt_dec d q) as [H | H]; [exact H |].
    exfalso. apply (Hn q); [lia |]. exists k. lia. }
  assert (d * d <= q * k) by (apply Z.mul_le_mono_nonneg; lia).
  lia.
Qed.

(* ================================================================= *)
(** ** Powerful numbers *)

Lemma powerful_1 : powerful 1.
Proof.
  intros p Hp Hd. apply Z.divide_1_r in Hd.
  pose proof (Z.prime_ge_2 p Hp). lia.
Qed.

Lemma prime_not_powerful (r : Z) : Z.prime r -> ~ powerful r.
Proof.
  intros Hp Hpow. pose proof (Z.prime_ge_2 r Hp) as Hr.
  pose proof (Hpow r Hp (Z.divide_refl r)) as Hd.
  apply Z.divide_pos_le in Hd; nia.
Qed.

(** A prime that divides [r] exactly once. *)
Lemma single_not_powerful (d r r' : Z) :
  Z.prime d -> r = d * r' -> ~ (d | r') -> ~ powerful r.
Proof.
  intros Hp -> Hnd Hpow. apply Hnd.
  pose proof (Z.prime_ge_2 d Hp) as Hd.
  assert (H : (d * d | d * r')) by (apply Hpow; [exact Hp | now exists r'; ring]).
  now apply Z.mul_divide_cancel_l in H; [| lia].
Qed.

(** A prime power of exponent at least 2 can be left out. *)
Lemma powerful_strip (d e r r' : Z) :
  Z.prime d -> 2 <= e -> r = d ^ e * r' -> ~ (d | r') ->
  (powerful r <-> powerful r').
Proof.
  intros Hp He -> Hnd. pose proof (Z.prime_ge_2 d Hp) as Hd.
  split; intros Hpow p Hpp Hdiv.
  - assert (Hpd : p <> d) by (intros ->; contradiction).
    assert (Hc : Z.coprime p d).
    { apply Z.coprime_prime_l; [exact Hpp |].
      intros H. apply Hpd. now apply Z.divide_prime_prime. }
    assert (Hcc : Z.coprime (p * p) (d ^ e)).
    { apply Z.coprime_mul_l; apply Z.coprime_pow_r; (lia || exact Hc). }
    apply Z.gauss with (d ^ e); [| exact Hcc].
    apply Hpow; [exact Hpp |]. now apply Z.divide_mul_r.
  - apply Z.divide_prime_mul in Hdiv; [| exact Hpp].
    destruct Hdiv as [Hdiv | Hdiv].
    + assert (p = d) by (apply (Z.divide_prime_pp p d e); (assumption || lia)).
      subst p. apply Z.divide_mul_l.
      exists (d ^ (e - 2)).
      replace e with (e - 2 + 2) at 1 by lia.
      rewrite Z.pow_add_r by lia. ring.
    + apply Z.divide_mul_r. now apply Hpow.
Qed.

(* ================================================================= *)
(** ** One candidate *)

(** The square of a candidate up to [2 ^ 32 + 3] is more than 1, also when
    it wraps. *)
Lemma small_square (d : Z) :
  5 <= d <= 2 ^ 32 + 3 -> d mod 2 = 1 -> 1 < wrap (d * d).
Proof.
  intros Hd Hodd.
  destruct (Z_le_gt_dec d (2 ^ 32 - 1)) as [Hs | Hb].
  - rewrite wrap_small by (rewrite modulus_eq; nia). nia.
  - assert (Hc : d = 2 ^ 32 + 1 \/ d = 2 ^ 32 + 3) by euclid.
    destruct Hc as [-> | ->]; reflexivity.
Qed.

Lemma square_le_power (d e r' : Z) :
  2 <= d -> 2 <= e -> 1 <= r' -> d * d <= d ^ e * r'.
Proof.
  intros Hd He Hr.
  replace e with (e - 2 + 2) by lia.
  rewrite Z.pow_add_r by lia. rewrite Z.pow_2_r.
  assert (HP : 0 < d ^ (e - 2)) by (apply Z.pow_pos_nonneg; lia).
  assert (HQ : 0 < d * d) by nia.
  generalize dependent (d ^ (e - 2)). generalize dependent (d * d).
  intros Q HQ P HP.
  assert (1 <= P * r') by nia.
  replace (P * Q * r') with (Q * (P * r')) by ring. nia.
Qed.

(** Taking the candidate [d] out of [r], nothing below [d] dividing [r]:
    either [d] divides [r] once and [r] is not powerful, or what is left
    is powerful if and only if [r] is, and nothing below the next
    candidate [d'] divides it. *)
Lemma trial_step (inner : nat) (d d' r : Z) :
  (64 < inner)%nat -> 2 <= d -> 1 <= r < modulus -> nodiv r d ->
  (forall r0, nodiv r0 (d + 1) -> nodiv r0 d') ->
  exists r' e,
    strip inner d r 0 = Done (r', e) /\ 1 <= r' <= r /\
    ((e =? 1) = true /\ ~ powerful r \/
     (e =? 1) = false /\ (powerful r <-> powerful r') /\ nodiv r' d' /\
     (r' = 1 -> r = 1 \/ d * d <= r)).
Proof.
  intros Hf Hd Hr Hn Hnext.
  destruct (strip_ok inner d r Hd Hr Hf) as (r' & e & Hs & He & Hre & Hr' & Hm).
  exists r', e. split; [exact Hs |]. split; [exact Hr' |].
  apply mod_not_divide in Hm; [| lia].
  destruct (Z.eq_dec e 0) as [-> | He0].
  - rewrite Z.pow_0_r, Z.mul_1_l in Hre. subst r'. right.
    repeat split; auto.
    apply Hnext. now apply nodiv_succ.
  - assert (Hdr : (d | r)).
    { rewrite Hre. apply Z.divide_mul_l. apply Z.divide_pow_same_r. lia. }
    pose proof (nodiv_prime d r Hd Hn Hdr) as Hp.
    destruct (Z.eqb_spec e 1) as [-> | He1].
    + left. split; [reflexivity |].
      rewrite Z.pow_1_r in Hre. now apply (single_not_powerful d r r').
    + right. split; [reflexivity |].
      split; [apply (powerful_strip d e r r'); (assumption || lia) |].
      split.
      * apply Hnext. apply nodiv_succ; [| exact Hm].
        apply (nodiv_weaken r r' d Hn). rewrite Hre. apply Z.divide_factor_r.
      * intros _. right. rewrite Hre. apply square_le_power; lia.
Qed.

(* ================================================================= *)
(** ** The wheel phase *)

Lemma candidate_even (i : nat) : candidate (2 * i) = 6 * Z.of_nat i + 5.
Proof.
  unfold candidate.
  replace ((2 * i) / 2)%nat with i
    by (apply (Nat.div_unique _ 2 i 0); lia).
  replace ((2 * i) mod 2)%nat with 0%nat
    by (apply (Nat.mod_unique _ 2 i 0); lia).
  lia.
Qed.

Lemma candidate_odd (i : nat) : candidate (2 * i + 1) = 6 * Z.of_nat i + 7.
Proof.
  unfold candidate.
  replace ((2 * i + 1) / 2)%nat with i
    by (apply (Nat.div_unique _ 2 i 1); lia).
  replace ((2 * i + 1) mod 2)%nat with 1%nat
    by (apply (Nat.mod_unique _ 2 i 1); lia).
  lia.
Qed.

(** Once the loop condition holds, something is left of the number. *)
Lemma head_inv_pass (d r : Z) :
  head_inv d r -> wrap (d * d) <= r -> 1 < r /\ d <= r.
Proof.
  intros (Hd & Hm & Hr & Hn & Hone) Hc.
  assert (H1 : 1 < r).
  { destruct (Z.eq_dec r 1) as [-> | Hne]; [| lia].
    assert (1 < wrap (d * d)); [| lia].
    apply small_square; [specialize (Hone eq_refl); lia | euclid]. }
  split; [exact H1 | now apply nodiv_bound].
Qed.

Ltac run_body :=
  unfold wheel_body, bind, tell, lift, ret; cbv beta iota zeta.

Lemma wheel_body_spec (inner : nat) (d r : Z) :
  (64 < inner)%nat -> head_inv d r -> wrap (d * d) <= r ->
  body_spec d r (wheel_body inner d r).
Proof.
  intros Hf Hinv Hc.
  destruct (head_inv_pass d r Hinv Hc) as [Hr1 Hdr].
  destruct Hinv as (Hd & Hm & Hr & Hn & Hone).
  rewrite modulus_eq in Hr.
  destruct (trial_step inner d (d + 2) r Hf) as
    (r1 & e1 & Hs1 & Hb1 & [[E1 Hnp] | (E1 & Hiff1 & Hn1 & Hone1)]);
    try (rewrite ?modulus_eq; lia); try assumption.
  { intros r0. now apply nodiv_next_5. }
  { run_body. rewrite Hs1, E1. simpl. now constructor. }
  assert (Hw2 : wrap (d + 2) = d + 2)
    by (apply wrap_small; rewrite modulus_eq; euclid).
  destruct (trial_step inner (d + 2) (d + 6) r1 Hf) as
    (r2 & e2 & Hs2 & Hb2 & [[E2 Hnp] | (E2 & Hiff2 & Hn2 & Hone2)]);
    try (rewrite ?modulus_eq; lia); try assumption.
  { intros r0 H0. replace (d + 6) with (d + 2 + 4) by lia.
    apply nodiv_next_1; [lia | euclid | exact H0]. }
  { run_body. rewrite Hs1, E1, Hw2, Hs2, E2. simpl.
    constructor; [tauto | lia | exact Hn1]. }
  assert (Hsmall : r2 = 1 -> d <= 2 ^ 32 - 5).
  { intros H2. destruct (Hone2 H2) as [H1 | Hsq].
    - destruct (Hone1 H1) as [H | Hsq]; [lia |].
      assert (d <= 2 ^ 32 - 1) by nia. euclid.
    - assert (d + 2 <= 2 ^ 32 - 1) by nia. euclid. }
  assert (Hw6 : wrap (d + 2 + 4) = d + 6).
  { replace (d + 2 + 4) with (d + 6) by lia.
    apply wrap_small. rewrite modulus_eq.
    destruct (Z.eq_dec r2 1) as [H2 | H2]; [specialize (Hsmall H2); lia |].
    pose proof (nodiv_bound r2 (d + 6) Hn2). lia. }
  run_body. rewrite Hs1, E1, Hw2, Hs2, E2, Hw6. simpl.
  constructor; try assumption; try lia; [| tauto].
  repeat split; try (rewrite ?modulus_eq; lia); try assumption; euclid.
Qed.

(** One round of the [for] loop. *)
Lemma wheel_S (inner fuel : nat) (d r : Z) :
  wheel inner (S fuel) d r =
  if wrap (d * d) <=? r
  then
    match wheel_body inner d r with
    | (l, Done (Return v)) => (Compare d r :: l, Done v)
    | (l, Done (Next d' r')) =>
        let (l', o) := wheel inner fuel d' r' in (Compare d r :: l ++ l', o)
    | (l, DivByZero) => (Compare d r :: l, DivByZero)
    | (l, OutOfFuel) => (Compare d r :: l, OutOfFuel)
    end
  else ([Compare d r], Done (if r =? 1 then 1 else 0)).
Proof.
  cbn [wheel]. unfold bind at 1. unfold tell. cbv iota beta.
  destruct (wrap (d * d) <=? r).
  - unfold bind. destruct (wheel_body inner d r) as [l [[d' r' | v] | |]];
      cbn [app]; try reflexivity.
    + destruct (wheel inner fuel d' r') as [l' o]. reflexivity.
    + unfold ret. now rewrite app_nil_r.
  - destruct (r =? 1); reflexivity.
Qed.

Ltac all_events :=
  cbn [app]; repeat (apply Forall_cons; [solve [auto] |]);
  solve [apply Forall_nil | assumption].

(** From a state where [head_inv] holds, and with fuel for the candidates
    up to [r], the wheel phase ends: it says whether [r] is powerful, it
    tests the candidates in their order, and [event_ok] holds of all its
    events. *)
Lemma wheel_spec (inner : nat) (Hf : (64 < inner)%nat) :
  forall (fuel i : nat) (d r : Z),
    d = candidate (2 * i) -> head_inv d r ->
    Z.max 1 (r - d + 2) <= Z.of_nat fuel ->
    exists log v,
      wheel inner fuel d r = (log, Done v) /\ classified r v /\
      tested log = map candidate (seq (2 * i) (List.length (tested log))) /\
      Forall event_ok log.
Proof.
  induction fuel as [| fuel IH]; intros i d r Hd Hinv Hfuel; [lia |].
  rewrite wheel_S.
  assert (Hc1 : d = candidate (2 * i)) by exact Hd.
  rewrite candidate_even in Hd.
  assert (Hc2 : d + 2 = candidate (S (2 * i))).
  { replace (S (2 * i)) with (2 * i + 1)%nat by lia.
    rewrite candidate_odd. lia. }
  pose proof Hinv as (H5 & Hm & Hr & Hn & Hone).
  assert (Hcmp : event_ok (Compare d r)) by (cbn; intuition lia).
  destruct (Z.leb_spec (wrap (d * d)) r) as [Hc | Hc].
  - assert (Htr : event_ok (Trial d r)) by (cbn; intuition lia).
    assert (Htr2 : forall r1, 1 <= r1 -> nodiv r1 (d + 2) ->
                              event_ok (Trial (d + 2) r1)).
    { intros r1 H1 Hn1. cbn. repeat split; try lia; try assumption.
      intros E. exfalso. euclid. }
    destruct (wheel_body_spec inner d r Hf Hinv Hc)
      as [Hnp | r1 Hnp Hr1 Hn1 | r1 r2 Hr1 Hn1 Hinv2 Hle Hdr Hiff].
    + exists [Compare d r; Trial d r], 0.
      split; [reflexivity |]. split; [right; now split |].
      split; [cbn [tested List.length seq map]; now rewrite <- Hc1 |].
      all_events.
    + exists [Compare d r; Trial d r; Trial (d + 2) r1], 0.
      split; [reflexivity |]. split; [right; now split |].
      split; [cbn [tested List.length seq map]; now rewrite <- Hc1, <- Hc2 |].
      all_events.
    + destruct (IH (S i) (d + 6) r2) as (log & v & Hw & Hcl & Htest & Hev).
      * rewrite candidate_even. lia.
      * exact Hinv2.
      * lia.
      * rewrite Hw.
        exists (Compare d r :: [Trial d r; Trial (d + 2) r1] ++ log), v.
        split; [reflexivity |].
        split; [destruct Hcl as [[-> Hp] | [-> Hp]]; [left | right]; tauto |].
        split.
        -- cbn [app tested List.length seq map].
           rewrite <- Hc1, <- Hc2. do 2 f_equal.
           replace (S (S (2 * i))) with (2 * S i)%nat by lia. exact Htest.
        -- all_events.
  - exists [Compare d r], (if r =? 1 then 1 else 0).
    split; [reflexivity |]. split.
    + destruct (Z.eqb_spec r 1) as [-> | Hne].
      * left. split; [reflexivity | apply powerful_1].
      * right. split; [reflexivity |]. apply prime_not_powerful.
        apply (nodiv_square_prime r d); try lia; try assumption.
        apply wrap_above; [nia | lia | lia].
    + split; [reflexivity |]. all_events.
Qed.

(* ================================================================= *)
(** ** The whole function *)

Lemma fuel_for_enough (fuel : nat) (n : Z) :
  1 <= n -> (fuel_for n <= fuel)%nat ->
  (64 < fuel)%nat /\ n <= Z.of_nat fuel.
Proof. unfold fuel_for. lia. Qed.

(** On a positive [unsigned long int] and with the fuel of [fuel_for] or
    more, [ispowerful] returns, and what it returns says whether the
    number is powerful. *)
Lemma ispowerful_spec (fuel : nat) (n : Z) :
  1 <= n < modulus -> (fuel_for n <= fuel)%nat ->
  exists log v,
    ispowerful_fuel fuel n = (log, Done v) /\ classified n v /\
    tested log = candidates (List.length (tested log)) /\
    Forall event_ok log.
Proof.
  intros Hn Hfuel.
  destruct (fuel_for_enough fuel n ltac:(lia) Hfuel) as [Hf Hle].
  unfold ispowerful_fuel.
  destruct (Z.eqb_spec n 0) as [-> | _]; [lia |].
  rewrite strip2_strip.
  destruct (trial_step fuel 2 3 n Hf) as
    (r1 & e1 & Hs1 & Hb1 & [[E1 Hnp] | (E1 & Hiff1 & Hn1 & _)]);
    try lia; try assumption.
  { intros k Hk. lia. }
  { intros r0 H0. exact H0. }
  { unfold bind, lift, ret. rewrite Hs1, E1.
    exists [], 0. split; [reflexivity |]. split; [right; now split |].
    split; [reflexivity | constructor]. }
  destruct (trial_step fuel 3 5 r1 Hf) as
    (r2 & e2 & Hs2 & Hb2 & [[E2 Hnp] | (E2 & Hiff2 & Hn2 & _)]);
    try lia; try assumption.
  { intros r0 H0. apply (nodiv_skip r0 4 2 H0); [lia | now exists 2]. }
  { unfold bind, lift, ret. rewrite Hs1, E1, Hs2, E2.
    exists [], 0. split; [reflexivity |]. split; [right; tauto |].
    split; [reflexivity | constructor]. }
  destruct (wheel_spec fuel Hf fuel 0 5 r2) as (log & v & Hw & Hcl & Ht & Hev).
  - reflexivity.
  - repeat split; try lia; try assumption.
  - lia.
  - unfold bind, lift, ret. rewrite Hs1, E1, Hs2, E2, Hw.
    exists log, v. split; [reflexivity |].
    split; [destruct Hcl as [[-> Hp] | [-> Hp]]; [left | right]; tauto |].
    split; [exact Ht | exact Hev].
Qed.

(** The value does not depend on the fuel, once there is enough of it. *)
Lemma classified_unique (n v v' : Z) :
  classified n v -> classified n v' -> v = v'.
Proof. intros [[-> H] | [-> H]] [[-> H'] | [-> H']]; tauto. Qed.

(* ================================================================= *)
(** ** Powerful numbers are the squares times cubes *)

Lemma prime_divisor (n : Z) : 1 < n -> exists p, Z.prime p /\ (p | n).
Proof.
  pattern n. apply (well_founded_induction (Z.lt_wf 2)). clear n.
  intros n IH Hn.
  destruct (prime_dec n) as [Hp | Hnp].
  - exists n. split; [now apply prime_alt | apply Z.divide_refl].
  - destruct (not_prime_divide n Hn Hnp) as (k & Hk & Hkn).
    destruct (IH k ltac:(lia) ltac:(lia)) as (p & Hp & Hpk).
    exists p. split; [exact Hp | now apply Z.divide_trans with k].
Qed.

(** How often [p] divides [n]. *)
Lemma multiplicity (p n : Z) :
  2 <= p -> 1 <= n ->
  exists e m, 0 <= e /\ 1 <= m /\ n = p ^ e * m /\ ~ (p | m).
Proof.
  intros Hp Hn. revert Hn. pattern n.
  apply (well_founded_induction (Z.lt_wf 1)). clear n.
  intros n IH Hn.
  destruct (Z.BoolSpec_divide_nz p n ltac:(lia)) as [[q Hq] | Hnd].
  - assert (Hq1 : 1 <= q < n) by nia.
    destruct (IH q ltac:(lia) ltac:(lia)) as (e & m & He & Hm & Hqe & Hpm).
    exists (e + 1), m. repeat split; try lia; try assumption.
    rewrite Z.pow_add_r, Z.pow_1_r by lia. rewrite Hq, Hqe. ring.
  - exists 0, n. rewrite Z.pow_0_r. repeat split; try lia. exact Hnd.
Qed.

Lemma mul_divide_mono (a b c d : Z) : (a | b) -> (c | d) -> (a * c | b * d).
Proof. intros [x ->] [y ->]. exists (x * y). ring. Qed.

Lemma pow_3 (x : Z) : x ^ 3 = x * x * x.
Proof. ring. Qed.

Lemma square_cube_powerful (n : Z) : square_cube n -> powerful n.
Proof.
  intros (a & b & Ha & Hb & ->) p Hp Hd.
  rewrite Z.pow_2_r, pow_3 in *.
  apply Z.divide_prime_mul in Hd; [| exact Hp].
  destruct Hd as [Hd | Hd].
  - apply Z.divide_mul_l.
    apply Z.divide_prime_mul in Hd; [| exact Hp].
    apply mul_divide_mono; tauto.
  - apply Z.divide_mul_r, Z.divide_mul_l.
    apply Z.divide_prime_mul in Hd; [| exact Hp].
    destruct Hd as [Hd | Hd]; [| apply mul_divide_mono; exact Hd].
    apply Z.divide_prime_mul in Hd; [| exact Hp].
    apply mul_divide_mono; tauto.
Qed.

Lemma powerful_square_cube (n : Z) : 1 <= n -> powerful n -> square_cube n.
Proof.
  intros Hn. revert Hn. pattern n.
  apply (well_founded_induction (Z.lt_wf 1)). clear n.
  intros n IH Hn Hpow.
  destruct (Z.eq_dec n 1) as [-> | Hn1].
  { exists 1, 1. repeat split; lia. }
  destruct (prime_divisor n ltac:(lia)) as (p & Hp & Hpn).
  pose proof (Z.prime_ge_2 p Hp) as Hp2.
  destruct (multiplicity p n Hp2 Hn) as (e & m & He & Hm & Hnm & Hpm).
  assert (He2 : 2 <= e).
  { destruct (Z.eq_dec e 0) as [-> | He0].
    - rewrite Z.pow_0_r, Z.mul_1_l in Hnm. subst m. contradiction.
    - destruct (Z.eq_dec e 1) as [-> | He1]; [| lia].
      rewrite Z.pow_1_r in Hnm.
      now destruct (single_not_powerful p n m Hp Hnm Hpm). }
  assert (Hpe : 4 <= p ^ e).
  { pose proof (square_le_power p e 1 Hp2 He2 ltac:(lia)). nia. }
  assert (Hmn : 1 <= m < n) by nia.
  destruct (IH m Hmn) as (a & b & Ha & Hb & Hab); [lia | |].
  { now apply (powerful_strip p e n m Hp He2 Hnm Hpm). }
  destruct (Z.eq_dec (e mod 2) 0) as [Hev | Hodd].
  - assert (Hk : 0 <= e / 2) by euclid.
    assert (Hek : e = e / 2 + e / 2) by euclid.
    generalize dependent (e / 2). intros k Hk Hek.
    exists (p ^ k * a), b.
    assert (0 < p ^ k) by (apply Z.pow_pos_nonneg; lia).
    repeat split; try nia.
    rewrite Hnm, Hab, Hek, Z.pow_add_r by lia. ring.
  - assert (Hk : 0 <= (e - 3) / 2) by euclid.
    assert (Hek : e = (e - 3) / 2 + (e - 3) / 2 + 3) by euclid.
    generalize dependent ((e - 3) / 2). intros k Hk Hek.
    exists (p ^ k * a), (p * b).
    assert (0 < p ^ k) by (apply Z.pow_pos_nonneg; lia).
    repeat split; try nia.
    rewrite Hnm, Hab, Hek, !Z.pow_add_r by lia. ring.
Qed.

(* ================================================================= *)
(** ** The loop that tests every candidate against the bound *)

Lemma guarded_inv_pass (d step r : Z) :
  guarded_inv d step r -> wrap (d * d) <= r -> 1 < r /\ d <= r.
Proof.
  intros (Hs & Hd & Hr & Hn & Hone) Hc.
  assert (H1 : 1 < r).
  { destruct (Z.eq_dec r 1) as [-> | Hne]; [| lia].
    assert (1 < wrap (d * d)); [| lia].
    apply small_square; [specialize (Hone eq_refl); lia | euclid]. }
  split; [exact H1 | now apply nodiv_bound].
Qed.

Lemma wheel_guarded_spec (inner : nat) (Hf : (64 < inner)%nat) :
  forall (fuel : nat) (d step r : Z),
    guarded_inv d step r -> Z.max 1 (r - d + 2) <= Z.of_nat fuel ->
    exists v, wheel_guarded inner fuel d step r = Done v /\ classified r v.
Proof.
  induction fuel as [| fuel IH]; intros d step r Hinv Hfuel; [lia |].
  cbn [wheel_guarded].
  destruct (Z.leb_spec (wrap (d * d)) r) as [Hc | Hc].
  - destruct (guarded_inv_pass d step r Hinv Hc) as [Hr1 Hdr].
    destruct Hinv as (Hs & Hd & Hr & Hn & Hone).
    destruct (trial_step inner d (d + step) r Hf) as
      (r' & e & Hst & Hb & [[E Hnp] | (E & Hiff & Hn' & Hone')]);
      try lia; try assumption.
    { intros r0 H0. destruct Hs as [[-> Hm] | [-> Hm]].
      - now apply nodiv_next_5.
      - now apply nodiv_next_1. }
    { rewrite Hst, E. exists 0. split; [reflexivity | right; now split]. }
    rewrite modulus_eq in Hr.
    assert (Hsmall : r' = 1 -> d <= 2 ^ 32 - 1).
    { intros H1. destruct (Hone' H1) as [H | Hsq]; [lia | nia]. }
    assert (Hw : wrap (d + step) = d + step).
    { apply wrap_small. rewrite modulus_eq.
      destruct (Z.eq_dec r' 1) as [H1 | H1]; [specialize (Hsmall H1); lia |].
      pose proof (nodiv_bound r' (d + step) Hn'). lia. }
    rewrite Hst, E, Hw.
    destruct (IH (d + step) (6 - step) r') as (v & Hv & Hcl).
    + repeat split; try (rewrite ?modulus_eq; lia); try assumption.
      destruct Hs as [[-> Hm] | [-> Hm]]; [right | left]; split; euclid.
    + lia.
    + exists v. split; [exact Hv |].
      destruct Hcl as [[-> Hp] | [-> Hp]]; [left | right]; tauto.
  - destruct Hinv as (Hs & Hd & Hr & Hn & Hone).
    destruct (Z.eqb_spec r 1) as [-> | Hne].
    + exists 1. split; [reflexivity |]. left. split; [reflexivity | apply powerful_1].
    + exists 0. split; [reflexivity |]. right. split; [reflexivity |].
      apply prime_not_powerful.
      apply (nodiv_square_prime r d); try lia; try assumption.
      apply wrap_above; [nia | lia | lia].
Qed.

Lemma classify_guarded_spec (fuel : nat) (n : Z) :
  1 <= n < modulus -> (fuel_for n <= fuel)%nat ->
  exists v, classify_guarded fuel n = Done v /\ classified n v.
Proof.
  intros Hn Hfuel.
  destruct (fuel_for_enough fuel n ltac:(lia) Hfuel) as [Hf Hle].
  unfold classify_guarded.
  destruct (Z.eqb_spec n 0) as [-> | _]; [lia |].
  destruct (trial_step fuel 2 3 n Hf) as
    (r1 & e1 & Hs1 & Hb1 & [[E1 Hnp] | (E1 & Hiff1 & Hn1 & _)]);
    try lia; try assumption.
  { intros k Hk. lia. }
  { intros r0 H0. exact H0. }
  { rewrite Hs1, E1. exists 0. split; [reflexivity | right; now split]. }
  destruct (trial_step fuel 3 5 r1 Hf) as
    (r2 & e2 & Hs2 & Hb2 & [[E2 Hnp] | (E2 & Hiff2 & Hn2 & _)]);
    try lia; try assumption.
  { intros r0 H0. apply (nodiv_skip r0 4 2 H0); [lia | now exists 2]. }
  { rewrite Hs1, E1, Hs2, E2. exists 0. split; [reflexivity | right; tauto]. }
  destruct (wheel_guarded_spec fuel Hf fuel 5 2 r2) as (v & Hw & Hcl).
  - repeat split; try lia; try assumption. left. split; reflexivity.
  - lia.
  - rewrite Hs1, E1, Hs2, E2, Hw. exists v. split; [reflexivity |].
    destruct Hcl as [[-> Hp] | [-> Hp]]; [left | right]; tauto.
Qed.

(* ================================================================= *)
(** ** Runs that reach [2 ^ 32] *)

Lemma no_divisor_sound (count : nat) :
  forall d p,
    no_divisor count d p = true ->
    forall k, d <= k < d + Z.of_nat count -> p mod k <> 0.
Proof.
  induction count as [| count IH]; intros d p H k Hk; [lia |].
  cbn [no_divisor] in H. apply andb_prop in H. destruct H as [Hd Hrest].
  destruct (Z.eq_dec k d) as [-> | Hne].
  - intros E. rewrite E in Hd. discriminate.
  - apply (IH (d + 1) p Hrest). lia.
Qed.

Lemma prime_by_trial (count : nat) (p : Z) :
  1 < p -> no_divisor count 2 p = true ->
  p < (2 + Z.of_nat count) * (2 + Z.of_nat count) -> Z.prime p.
Proof.
  intros Hp Hno Hsq.
  apply (nodiv_square_prime p (2 + Z.of_nat count)); try lia.
  intros k Hk. apply mod_not_divide; [lia |].
  now apply (no_divisor_sound count 2 p Hno).
Qed.

(** The largest prime below [2 ^ 32]. *)
Lemma prime_4294967291 : Z.prime 4294967291.
Proof.
  apply (prime_by_trial (Z.to_nat 65534)).
  - lia.
  - vm_compute. reflexivity.
  - rewrite Z2Nat.id by lia. reflexivity.
Qed.

(** Below a prime, nothing but 1 divides its square. *)
Lemma nodiv_prime_square (p : Z) : Z.prime p -> nodiv (p * p) p.
Proof.
  intros Hp k Hk Hd.
  destruct (prime_divisor k ltac:(lia)) as (q & Hq & Hqk).
  assert (Hqp : (q | p)).
  { assert (H : (q | p * p)) by now apply Z.divide_trans with k.
    apply Z.divide_prime_mul in H; tauto. }
  apply Z.divide_prime_prime in Hqp; try assumption. subst q.
  apply Z.divide_pos_le in Hqk; lia.
Qed.

(** A divisor that does not divide leaves the number as it is. *)
Lemma strip_zero (inner : nat) (d r : Z) :
  (0 < inner)%nat -> d <> 0 -> r mod d <> 0 ->
  strip inner d r 0 = Done (r, 0).
Proof.
  intros Hi Hd Hm. destruct inner as [| inner]; [lia |]. cbn [strip].
  destruct (Z.eqb_spec d 0); [contradiction |].
  destruct (Z.eqb_spec (r mod d) 0); [contradiction | reflexivity].
Qed.

Lemma wheel_body_skip (inner : nat) (d r : Z) :
  (0 < inner)%nat -> 1 <= d -> d + 6 < modulus ->
  r mod d <> 0 -> r mod (d + 2) <> 0 ->
  wheel_body inner d r = ([Trial d r; Trial (d + 2) r], Done (Next (d + 6) r)).
Proof.
  intros Hi Hd Hb H1 H2. run_body.
  rewrite (strip_zero inner d r) by (assumption || lia). cbv iota beta.
  change (0 =? 1) with false. cbv iota.
  rewrite (wrap_small (d + 2)) by lia.
  rewrite (strip_zero inner (d + 2) r) by (assumption || lia). cbv iota beta.
  change (0 =? 1) with false. cbv iota.
  replace (d + 2 + 4) with (d + 6) by lia.
  rewrite (wrap_small (d + 6)) by lia. reflexivity.
Qed.

(** While the squares of the candidates stay below [r] and no candidate
    divides [r], the loop goes on: [steps] rounds lead from [d] to
    [d + 6 * steps]. *)
Lemma wheel_skip (inner : nat) (Hi : (0 < inner)%nat) :
  forall (steps fuel : nat) (d r : Z),
    1 <= d ->
    (d + 6 * Z.of_nat steps) * (d + 6 * Z.of_nat steps) <= r ->
    r < modulus ->
    (forall k, d <= k < d + 6 * Z.of_nat steps -> r mod k <> 0) ->
    exists pre,
      wheel inner (steps + fuel) d r =
      (pre ++ trace (wheel inner fuel (d + 6 * Z.of_nat steps) r),
       result (wheel inner fuel (d + 6 * Z.of_nat steps) r)).
Proof.
  induction steps as [| steps IH]; intros fuel d r Hd Hsq Hr Hno.
  - exists []. cbn [Nat.add app].
    replace (d + 6 * Z.of_nat 0) with d by lia.
    now destruct (wheel inner fuel d r).
  - cbn [Nat.add]. rewrite wheel_S.
    rewrite Nat2Z.inj_succ in Hsq, Hno.
    assert (Hd6 : (d + 6) * (d + 6) <= r) by nia.
    assert (Hlt : d + 6 < modulus) by nia.
    rewrite (wrap_small (d * d)) by nia.
    destruct (Z.leb_spec (d * d) r) as [_ | Hc]; [| nia].
    rewrite wheel_body_skip by (try apply Hno; lia).
    destruct (IH fuel (d + 6) r) as (pre & Hpre); try lia.
    { intros k Hk. apply Hno. lia. }
    rewrite Hpre.
    replace (d + 6 + 6 * Z.of_nat steps)
      with (d + 6 * Z.of_nat (S steps)) by lia.
    exists (Compare d r :: Trial d r :: Trial (d + 2) r :: pre).
    reflexivity.
Qed.

(** The run on the square of 4294967291: after the candidates below it,
    the loop takes 4294967291 out twice, tests 4294967293 on what is left,
    and evaluates its condition once more, at 4294967297. *)
Lemma large_square_run (fuel : nat) :
  (Z.to_nat 715827884 <= fuel)%nat ->
  exists pre,
    ispowerful_fuel fuel 18446744030759878681 =
    (pre ++ [Compare 4294967291 18446744030759878681;
             Trial 4294967291 18446744030759878681;
             Trial 4294967293 1;
             Compare 4294967297 1],
     Done 1).
Proof.
  intros Hf.
  assert (Hi : (0 < fuel)%nat) by lia.
  assert (Hnd : nodiv 18446744030759878681 4294967291)
    by exact (nodiv_prime_square _ prime_4294967291).
  assert (Hmod : forall k, 2 <= k < 4294967291 ->
                           18446744030759878681 mod k <> 0).
  { intros k Hk E. apply (Hnd k Hk). apply Z.mod_divide; [lia | exact E]. }
  unfold ispowerful_fuel.
  change (18446744030759878681 =? 0) with false. cbv iota.
  rewrite strip2_strip.
  unfold bind, lift.
  rewrite (strip_zero fuel 2) by (try apply Hmod; lia). cbv iota beta.
  change (0 =? 1) with false. cbv iota.
  rewrite (strip_zero fuel 3) by (try apply Hmod; lia). cbv iota beta.
  change (0 =? 1) with false. cbv iota.
  destruct (wheel_skip fuel Hi (Z.to_nat 715827881)
              (fuel - Z.to_nat 715827881) 5 18446744030759878681)
    as (pre & Hpre).
  - lia.
  - rewrite Z2Nat.id by lia. reflexivity.
  - rewrite modulus_eq. lia.
  - intros k Hk. apply Hmod. lia.
  - replace (Z.to_nat 715827881 + (fuel - Z.to_nat 715827881))%nat
      with fuel in Hpre by lia.
    rewrite Z2Nat.id in Hpre by lia.
    change (5 + 6 * 715827881) with 4294967291 in Hpre.
    rewrite Hpre. clear Hpre.
    destruct (fuel - Z.to_nat 715827881)%nat as [| [| rest]] eqn:E; try lia.
    rewrite wheel_S.
    change (wrap (4294967291 * 4294967291) <=? 18446744030759878681)
      with true.
    cbv iota. run_body.
    rewrite (strip_more_fuel 3 fuel 4294967291 18446744030759878681 0 (1, 2))
      by (reflexivity || lia).
    cbv iota beta. change (2 =? 1) with false. cbv iota.
    change (wrap (4294967291 + 2)) with 4294967293.
    rewrite (strip_zero fuel 4294967293 1) by (try lia; discriminate).
    cbv iota beta. change (0 =? 1) with false. cbv iota.
    change (wrap (4294967293 + 4)) with 4294967297.
    rewrite wheel_S.
    change (wrap (4294967297 * 4294967297) <=? 1) with false. cbv iota.
    change (1 =? 1) with true. cbv iota.
    exists pre. reflexivity.
Qed.

(* ================================================================= *)
(** ** A prime just below [2 ^ 64] *)


Lemma mod_one_pred (x p : Z) : 1 < p -> x mod p = 1 -> (x - 1) mod p = 0.
Proof.
  intros Hp Hx.
  rewrite Zminus_mod, Hx, Z.mod_1_l, Z.sub_diag by lia. apply Z.mod_0_l. lia.
Qed.

Lemma pow_one_mod (x k p : Z) :
  1 < p -> x mod p = 1 -> x ^ k mod p = 1 \/ k < 0.
Proof.
  intros Hp Hx. destruct (Z_lt_le_dec k 0) as [Hk | Hk]; [now right | left].
  rewrite <- Z.mod_pow_l, Hx, Z.pow_1_l by lia. now apply Z.mod_1_l.
Qed.

Lemma pow_mul_one_mod (x m k p : Z) :
  1 < p -> 0 <= m -> 0 <= k -> x ^ m mod p = 1 -> x ^ (m * k) mod p = 1.
Proof.
  intros Hp Hm Hk Hx. rewrite Z.pow_mul_r by lia.
  destruct (pow_one_mod (x ^ m) k p Hp Hx); [assumption | lia].
Qed.

(** Exponents that give 1 modulo [p]: their greatest common divisor
    gives 1. *)
Lemma pow_gcd_one_mod (a m n p : Z) :
  1 < p -> 0 < m -> 0 < n ->
  a ^ m mod p = 1 -> a ^ n mod p = 1 -> a ^ Z.gcd m n mod p = 1.
Proof.
  intros Hp Hm Hn Em En.
  destruct (Z.gcd_bezout m n _ eq_refl) as (u & v & Huv).
  pose proof (Z.gcd_nonneg m n) as Hg.
  set (t := Z.abs u + Z.abs v).
  assert (Hu : 0 <= u + t * n) by nia.
  assert (Hw : 0 <= t * m - v) by nia.
  assert (E : m * (u + t * n) = Z.gcd m n + n * (t * m - v)) by lia.
  assert (E1 : a ^ (m * (u + t * n)) mod p = 1)
    by (apply pow_mul_one_mod; (assumption || lia)).
  rewrite E, Z.pow_add_r in E1 by nia.
  rewrite Z.mul_mod in E1 by lia.
  rewrite (pow_mul_one_mod a n (t * m - v) p) in E1 by (assumption || lia).
  rewrite Z.mul_1_r, Z.mod_mod in E1 by lia. exact E1.
Qed.

(** One prime [q] of the known part of [N - 1]: it divides [p - 1] for
    every prime [p] that divides [N]. *)
Lemma pocklington_factor (N a q p : Z) :
  1 < N -> Z.prime q -> (q | N - 1) ->
  a ^ (N - 1) mod N = 1 ->
  Z.gcd (a ^ ((N - 1) / q) mod N - 1) N = 1 ->
  Z.prime p -> (p | N) -> (q | p - 1).
Proof.
  intros HN Hq HqN Ha Hgcd Hp HpN.
  pose proof (Z.prime_ge_2 p Hp) as Hp2.
  pose proof (Z.prime_ge_2 q Hq) as Hq2.
  assert (Hap : a ^ (N - 1) mod p = 1).
  { rewrite <- (Z.mod_mod_divide _ N p HpN), Ha. apply Z.mod_1_l. lia. }
  assert (Hnz : a mod p <> 0).
  { intros E. rewrite <- Z.mod_pow_l, E, Z.pow_0_l, Z.mod_0_l in Hap by lia.
    discriminate. }
  pose proof (Stdlib.Zmod.ZmodInv.Z.fermat_nz p a Hp Hnz) as Hf.
  destruct (Z.BoolSpec_divide_nz q (p - 1) ltac:(lia)) as [H | Hndiv];
    [exact H | exfalso].
  pose proof (pow_gcd_one_mod a (N - 1) (p - 1) p ltac:(lia) ltac:(lia)
                ltac:(lia) Hap Hf) as Hg.
  set (g := Z.gcd (N - 1) (p - 1)) in *.
  assert (Hg0 : 0 <= g) by apply Z.gcd_nonneg.
  assert (HM : N - 1 = q * ((N - 1) / q)).
  { destruct HqN as [c Hc]. rewrite Hc, Z.div_mul by lia. ring. }
  assert (HgM : (g | (N - 1) / q)).
  { apply Z.gauss with q.
    - rewrite <- HM. apply Z.gcd_divide_l.
    - rewrite Z.gcd_comm. apply Z.coprime_prime_l; [exact Hq |].
      intros Hqg. apply Hndiv.
      apply Z.divide_trans with g; [exact Hqg | apply Z.gcd_divide_r]. }
  destruct HgM as [c Hc].
  assert (Hc0 : 0 <= c).
  { assert (0 < (N - 1) / q) by nia. nia. }
  assert (HaM : a ^ ((N - 1) / q) mod p = 1).
  { rewrite Hc, Z.mul_comm. apply pow_mul_one_mod; (assumption || lia). }
  assert (Hdiv : (p | a ^ ((N - 1) / q) mod N - 1)).
  { apply Z.mod_divide; [lia |].
    rewrite <- (Z.mod_mod_divide _ N p HpN) in HaM.
    apply mod_one_pred; [lia | exact HaM]. }
  pose proof (Z.gcd_greatest _ _ _ Hdiv HpN) as H1.
  rewrite Hgcd in H1. apply Z.divide_1_r in H1. lia.
Qed.

(** Pocklington's criterion with two primes [q1] and [q2] whose product
    is above the root of [N]. *)
Lemma pocklington (N a q1 q2 : Z) :
  1 < N -> Z.prime q1 -> Z.prime q2 -> q1 <> q2 ->
  (q1 | N - 1) -> (q2 | N - 1) ->
  N < (q1 * q2 + 1) * (q1 * q2 + 1) ->
  a ^ (N - 1) mod N = 1 ->
  Z.gcd (a ^ ((N - 1) / q1) mod N - 1) N = 1 ->
  Z.gcd (a ^ ((N - 1) / q2) mod N - 1) N = 1 ->
  Z.prime N.
Proof.
  intros HN Hq1 Hq2 Hne Hd1 Hd2 Hsq Ha Hg1 Hg2.
  pose proof (Z.prime_ge_2 q1 Hq1) as H21.
  pose proof (Z.prime_ge_2 q2 Hq2) as H22.
  assert (Hbig : forall p, Z.prime p -> (p | N) -> q1 * q2 + 1 <= p).
  { intros p Hp HpN. pose proof (Z.prime_ge_2 p Hp) as Hp2.
    pose proof (pocklington_factor N a q1 p HN Hq1 Hd1 Ha Hg1 Hp HpN) as [c Hc].
    pose proof (pocklington_factor N a q2 p HN Hq2 Hd2 Ha Hg2 Hp HpN) as D2.
    assert (Hq2c : (q2 | c)).
    { apply Z.gauss with q1; [rewrite Z.mul_comm, <- Hc; exact D2 |].
      apply Z.coprime_prime_l; [exact Hq2 |].
      intros H. apply Hne. symmetry. now apply Z.divide_prime_prime. }
    destruct Hq2c as [e He]. subst c.
    assert (0 < e) by nia. nia. }
  split; [exact HN |].
  intros k Hk [j Hj].
  assert (Hj1 : 1 < j < N) by nia.
  destruct (prime_divisor k ltac:(lia)) as (p1 & Hp1 & Hpk).
  destruct (prime_divisor j ltac:(lia)) as (p2 & Hp2 & Hpj).
  assert (B1 : q1 * q2 + 1 <= p1).
  { apply Hbig; [exact Hp1 |]. apply Z.divide_trans with k; [exact Hpk |].
    exists j. lia. }
  assert (B2 : q1 * q2 + 1 <= p2).
  { apply Hbig; [exact Hp2 |]. apply Z.divide_trans with j; [exact Hpj |].
    exists k. lia. }
  apply Z.divide_pos_le in Hpk; [| lia].
  apply Z.divide_pos_le in Hpj; [| lia].
  assert ((q1 * q2 + 1) * (q1 * q2 + 1) <= j * k)
    by (apply Z.mul_le_mono_nonneg; lia).
  lia.
Qed.

Lemma prime_809383 : Z.prime 809383.
Proof.
  apply (prime_by_trial (Z.to_nat 900)).
  - lia.
  - vm_compute. reflexivity.
  - rewrite Z2Nat.id by lia. reflexivity.
Qed.

Lemma prime_10247197 : Z.prime 10247197.
Proof.
  apply (prime_by_trial (Z.to_nat 3200)).
  - lia.
  - vm_compute. reflexivity.
  - rewrite Z2Nat.id by lia. reflexivity.
Qed.

(** [2 ^ 64 - 83] is prime: [2 ^ 64 - 84] is
    [4 * 43 * 67 * 193 * 809383 * 10247197]. *)
Lemma prime_18446744073709551533 : Z.prime 18446744073709551533.
Proof.
  apply (pocklington 18446744073709551533 2 809383 10247197).
  - lia.
  - exact prime_809383.
  - exact prime_10247197.
  - lia.
  - exists 22791118758004. reflexivity.
  - exists 1800174630556. reflexivity.
  - reflexivity.
  - rewrite <- Zpow_mod_correct by lia. vm_compute. reflexivity.
  - rewrite <- Zpow_mod_correct by lia. vm_compute. reflexivity.
  - rewrite <- Zpow_mod_correct by lia. vm_compute. reflexivity.
Qed.

(** A pass through the body starts with the test of its divisor. *)
Lemma wheel_body_starts (inner : nat) (d r : Z) :
  exists l o, wheel_body inner d r = (Trial d r :: l, o).
Proof.
  run_body. destruct (strip inner d r 0) as [[r1 e1] | |];
    cbv iota beta; cbn [app]; eauto.
  destruct (e1 =? 1); cbn [app]; eauto.
  destruct (strip inner (wrap (d + 2)) r1 0) as [[r2 e2] | |];
    cbv iota beta; cbn [app]; eauto.
  destruct (e2 =? 1); cbn [app]; eauto.
Qed.

Lemma wheel_pass_starts (inner fuel : nat) (d r : Z) :
  wrap (d * d) <= r ->
  exists l o, wheel inner (S fuel) d r = (Compare d r :: Trial d r :: l, o).
Proof.
  intros Hc. rewrite wheel_S.
  destruct (Z.leb_spec (wrap (d * d)) r) as [_ | H]; [| lia].
  destruct (wheel_body_starts inner d r) as (l & o & ->).
  destruct o as [[d' r' | v] | |]; eauto.
  destruct (wheel inner fuel d' r') as [l' o']. cbn [app]. eauto.
Qed.

(** The run on a prime from the square of 4294967291 on: the loop
    condition holds at 4294967291; at the next head, 4294967297, the
    square is above the number, and the loop condition, evaluated with
    the wrapped square 8589934593, holds again: 4294967297 is tested. *)
Lemma large_prime_run (n : Z) (fuel : nat) :
  Z.prime n -> 18446744030759878681 <= n < modulus ->
  (Z.to_nat 715827884 <= fuel)%nat ->
  exists pre post o,
    ispowerful_fuel fuel n =
    (pre ++ Compare 4294967291 n :: Trial 4294967291 n ::
            Trial 4294967293 n ::
            Compare 4294967297 n :: Trial 4294967297 n :: post,
     o).
Proof.
  intros Hp Hn Hf. rewrite modulus_eq in Hn.
  assert (Hi : (0 < fuel)%nat) by lia.
  assert (Hmod : forall k, 2 <= k < n -> n mod k <> 0).
  { intros k Hk E. apply (proj2 Hp k); [lia |].
    apply Z.mod_divide; [lia | exact E]. }
  unfold ispowerful_fuel.
  destruct (Z.eqb_spec n 0) as [E | _]; [lia |].
  rewrite strip2_strip.
  unfold bind, lift.
  rewrite (strip_zero fuel 2) by (try apply Hmod; lia). cbv iota beta.
  change (0 =? 1) with false. cbv iota.
  rewrite (strip_zero fuel 3) by (try apply Hmod; lia). cbv iota beta.
  change (0 =? 1) with false. cbv iota.
  destruct (wheel_skip fuel Hi (Z.to_nat 715827881)
              (fuel - Z.to_nat 715827881) 5 n)
    as (pre & Hpre).
  - lia.
  - rewrite Z2Nat.id by lia. change (5 + 6 * 715827881) with 4294967291.
    change (4294967291 * 4294967291) with 18446744030759878681. lia.
  - rewrite modulus_eq. lia.
  - intros k Hk. apply Hmod. lia.
  - replace (Z.to_nat 715827881 + (fuel - Z.to_nat 715827881))%nat
      with fuel in Hpre by lia.
    rewrite Z2Nat.id in Hpre by lia.
    change (5 + 6 * 715827881) with 4294967291 in Hpre.
    rewrite Hpre. clear Hpre.
    destruct (fuel - Z.to_nat 715827881)%nat as [| [| rest]] eqn:E; try lia.
    rewrite wheel_S.
    change (wrap (4294967291 * 4294967291)) with 18446744030759878681.
    destruct (Z.leb_spec 18446744030759878681 n) as [_ | H]; [| lia].
    rewrite wheel_body_skip
      by (try apply Hmod; try rewrite modulus_eq; lia).
    change (4294967291 + 2) with 4294967293.
    change (4294967291 + 6) with 4294967297.
    destruct (wheel_pass_starts fuel rest 4294967297 n) as (post & o & ->).
    { change (wrap (4294967297 * 4294967297)) with 8589934593. lia. }
    exists pre, post, o. unfold trace, result. cbn [fst snd app].
    reflexivity.
Qed.

(* ================================================================= *)
(** ** The wheel and the numbers coprime to 6 *)

Lemma even_or_odd (k : nat) :
  exists i, k = (2 * i)%nat \/ k = (2 * i + 1)%nat.
Proof.
  exists (k / 2)%nat.
  pose proof (Nat.div_mod_eq k 2) as E.
  pose proof (Nat.mod_upper_bound k 2 ltac:(lia)) as B.
  lia.
Qed.





(* ================================================================= *)
(** ** The properties of [ispowerful] *)

(** The tables of [test.c]. *)
Example powerful_table :
  map (fun n => result (ispowerful n))
    [1; 4; 8; 9; 16; 25; 27; 32; 36; 49; 64; 72; 81; 100; 108; 121; 125;
     128; 144; 169; 196; 200; 216; 225; 243; 256; 288; 289; 324; 343; 361;
     392; 400; 432; 441; 484; 500; 512; 529; 576; 625; 648; 675; 676; 729;
     784; 800; 841; 864; 900; 961; 968; 972; 1000; 30375; 10201; 1030301;
     51529; 52441]
  = repeat (Done 1) 59.
Proof. vm_compute. reflexivity. Qed.

Example notpowerful_table :
  map (fun n => result (ispowerful n))
    [2; 3; 5; 7; 11; 13; 17; 19; 23; 29; 31; 37; 41; 43; 47; 53; 59; 61;
     67; 71; 73; 79; 83; 89; 97; 101; 103; 107; 109; 113; 127; 131; 137;
     139; 149; 151; 157; 163; 167; 173; 179; 181; 191; 193; 197; 199; 211;
     223; 227; 229; 233; 239; 241; 251; 257; 263; 269; 271; 279; 2310;
     25410; 60984; 38808; 1416051; 12218753]
  = repeat (Done 0) 65 /\
  result (ispowerful 0) = Done (-1).
Proof. vm_compute. split; reflexivity. Qed.

(** Runs where the square of a candidate is the number. *)
Example boundary_traces :
  trace (ispowerful 25) =
    [Compare 5 25; Trial 5 25; Trial 7 1; Compare 11 1] /\
  trace (ispowerful 49) =
    [Compare 5 49; Trial 5 49; Trial 7 49; Compare 11 1] /\
  trace (ispowerful 121) =
    [Compare 5 121; Trial 5 121; Trial 7 121;
     Compare 11 121; Trial 11 121; Trial 13 1; Compare 17 1].
Proof. vm_compute. repeat split. Qed.

(** C1: for every [n >= 1] that fits an [unsigned long int], up to the
    largest one, [ispowerful] returns 1 if and only if every prime that
    divides [n] divides it twice, and 0 if and only if that fails; and
    these [n] are the squares times cubes of positive numbers. *)
Theorem ispowerful_iff_powerful (n : Z) (fuel : nat) :
  1 <= n < modulus -> (fuel_for n <= fuel)%nat ->
  (result (ispowerful_fuel fuel n) = Done 1 <-> powerful n) /\
  (result (ispowerful_fuel fuel n) = Done 0 <-> ~ powerful n) /\
  (powerful n <-> square_cube n).
Proof.
  intros Hn Hf.
  destruct (ispowerful_spec fuel n Hn Hf) as (log & v & Hrun & Hcl & _).
  rewrite Hrun. unfold result. cbn [snd].
  split; [| split].
  - split.
    + intros E. injection E as ->. destruct Hcl as [[_ H] | [H _]]; [exact H | lia].
    + intros Hp. destruct Hcl as [[-> _] | [_ H]]; [reflexivity | contradiction].
  - split.
    + intros E. injection E as ->. destruct Hcl as [[H _] | [_ H]]; [lia | exact H].
    + intros Hp. destruct Hcl as [[_ H] | [-> _]]; [contradiction | reflexivity].
  - split; [apply powerful_square_cube; lia | apply square_cube_powerful].
Qed.

Lemma ispowerful_iff_powerful_72 :
  (1 <= 72 < modulus /\ (fuel_for 72 <= fuel_for 72)%nat) /\
  (result (ispowerful_fuel (fuel_for 72) 72) = Done 1 <-> powerful 72) /\
  (result (ispowerful_fuel (fuel_for 72) 72) = Done 0 <-> ~ powerful 72) /\
  (powerful 72 <-> square_cube 72).
Proof.
  assert (Hn : 1 <= 72 < modulus) by (split; [lia | reflexivity]).
  assert (Hf : (fuel_for 72 <= fuel_for 72)%nat) by lia.
  split; [split; [exact Hn | exact Hf] |].
  exact (ispowerful_iff_powerful 72 (fuel_for 72) Hn Hf).
Defined.

(** C2: for every [unsigned long int] [n], [ispowerful] returns 1, 0 or
    -1, and it returns -1 if and only if [n] is 0. *)
Theorem ispowerful_returns (n : Z) (fuel : nat) :
  0 <= n < modulus -> (fuel_for n <= fuel)%nat ->
  exists v,
    result (ispowerful_fuel fuel n) = Done v /\
    (v = 1 \/ v = 0 \/ v = -1) /\ (v = -1 <-> n = 0).
Proof.
  intros Hn Hf.
  destruct (Z.eq_dec n 0) as [-> | Hn0].
  - exists (-1). repeat split; auto.
  - destruct (ispowerful_spec fuel n ltac:(lia) Hf) as (log & v & Hrun & Hcl & _).
    exists v. rewrite Hrun. split; [reflexivity |].
    destruct Hcl as [[-> _] | [-> _]]; split; auto; split; intros; lia.
Qed.

Lemma ispowerful_returns_0 :
  (0 <= 0 < modulus /\ (fuel_for 0 <= fuel_for 0)%nat) /\
  exists v,
    result (ispowerful_fuel (fuel_for 0) 0) = Done v /\
    (v = 1 \/ v = 0 \/ v = -1) /\ (v = -1 <-> 0 = 0).
Proof.
  assert (Hn : 0 <= 0 < modulus) by (split; [lia | reflexivity]).
  assert (Hf : (fuel_for 0 <= fuel_for 0)%nat) by lia.
  split; [split; [exact Hn | exact Hf] |].
  exact (ispowerful_returns 0 (fuel_for 0) Hn Hf).
Defined.

(** C3: for every [unsigned long int] [n], [ispowerful] ends, the wheel
    loop included, and it returns one value: the same whatever fuel the
    run is given beyond [fuel_for n]. *)
Theorem ispowerful_total (n : Z) :
  0 <= n < modulus ->
  exists v,
    forall fuel, (fuel_for n <= fuel)%nat ->
                 result (ispowerful_fuel fuel n) = Done v.
Proof.
  intros Hn.
  destruct (Z.eq_dec n 0) as [-> | Hn0].
  - exists (-1). reflexivity.
  - destruct (ispowerful_spec (fuel_for n) n ltac:(lia) (Nat.le_refl _))
      as (log & v & Hrun & Hcl & _).
    exists v. intros fuel Hf.
    destruct (ispowerful_spec fuel n ltac:(lia) Hf)
      as (log' & v' & Hrun' & Hcl' & _).
    rewrite Hrun'. unfold result. cbn [snd]. f_equal.
    now apply (classified_unique n).
Qed.

Lemma ispowerful_total_1573 :
  0 <= 1573 < modulus /\
  exists v,
    forall fuel, (fuel_for 1573 <= fuel)%nat ->
                 result (ispowerful_fuel fuel 1573) = Done v.
Proof.
  assert (Hn : 0 <= 1573 < modulus) by (split; [lia | reflexivity]).
  split; [exact Hn |].
  exact (ispowerful_total 1573 Hn).
Defined.


(** The square wraps on a powerful number as well: on
    18446744030759878681, the square of 4294967291, the last evaluation
    of the loop condition is at 4294967297, with the wrapped square. *)
Lemma square_wraps_on_large_square :
  result (ispowerful 18446744030759878681) = Done 1 /\
  In (Compare 4294967297 1) (trace (ispowerful 18446744030759878681)) /\
  ULong.max < 4294967297 * 4294967297 /\
  wrap (4294967297 * 4294967297) = 8589934593.
Proof.
  destruct (large_square_run (fuel_for 18446744030759878681))
    as (pre & Hrun); [unfold fuel_for; lia |].
  unfold ispowerful. rewrite Hrun. unfold result, trace. cbn [fst snd].
  split; [reflexivity |].
  split; [apply in_or_app; right; cbn; auto |].
  split; reflexivity.
Qed.

(** C6 fails on the prime 18446744073709551533, which is 2 ^ 64 - 83: the
    run comes to evaluate [divisor * divisor <= number] with [divisor]
    4294967297; the square is above the number and above the largest
    [unsigned long int], it wraps to 8589934593, the comparison holds,
    and 4294967297, beyond the square root of the number, is tested. *)
Theorem comparison_wraps_past_root :
  result (ispowerful 18446744073709551533) = Done 0 /\
  In (Compare 4294967297 18446744073709551533)
     (trace (ispowerful 18446744073709551533)) /\
  In (Trial 4294967297 18446744073709551533)
     (trace (ispowerful 18446744073709551533)) /\
  18446744073709551533 < 4294967297 * 4294967297 /\
  ULong.max < 4294967297 * 4294967297 /\
  wrap (4294967297 * 4294967297) = 8589934593 /\
  (wrap (4294967297 * 4294967297) <=? 18446744073709551533) = true.
Proof.
  assert (Hn : 1 <= 18446744073709551533 < modulus)
    by (split; [lia | reflexivity]).
  assert (Hf : (fuel_for 18446744073709551533 <=
                fuel_for 18446744073709551533)%nat) by lia.
  destruct (ispowerful_spec _ _ Hn Hf) as (log & v & Hrun & Hcl & _).
  destruct (large_prime_run 18446744073709551533
              (fuel_for 18446744073709551533) prime_18446744073709551533)
    as (pre & post & o & Hrun'); [split; [lia | reflexivity] | unfold fuel_for; lia |].
  unfold ispowerful. rewrite Hrun in Hrun'. injection Hrun' as Elog Eo.
  subst log o. rewrite Hrun. unfold result, trace. cbn [fst snd].
  split.
  { destruct Hcl as [[_ Hpow] | [-> _]]; [| reflexivity].
    now destruct (prime_not_powerful _ prime_18446744073709551533). }
  split; [apply in_or_app; right; cbn; auto 6 |].
  split; [apply in_or_app; right; cbn; auto 6 |].
  repeat split.
Qed.

(** C7: on 1, [ispowerful] returns 1 by going through its loops: the
    loops for 2 and 3 leave 1 with exponent 0, the loop condition of the
    wheel phase is evaluated once, at 5, and fails, so that no candidate
    is tested, and 1 is what is left. *)
Theorem ispowerful_1 (fuel : nat) :
  strip2 (S fuel) 1 0 = Done (1, 0) /\
  strip (S fuel) 3 1 0 = Done (1, 0) /\
  (wrap (5 * 5) <=? 1) = false /\
  ispowerful_fuel (S fuel) 1 = ([Compare 5 1], Done 1) /\
  ispowerful 1 = ([Compare 5 1], Done 1).
Proof. repeat split; reflexivity. Qed.

(** C8: each time the loop condition of the wheel phase is evaluated,
    with divisor [d] and number [r], every prime that divides [r] is at
    least [d]; so a candidate that is not prime does not divide the number
    it is tested on, and its loop leaves the number as it is, with
    exponent 0. *)
Theorem no_factor_below_divisor (n : Z) (fuel : nat) :
  1 <= n < modulus -> (fuel_for n <= fuel)%nat ->
  let log := trace (ispowerful_fuel fuel n) in
  (forall d r, In (Compare d r) log ->
               forall p, Z.prime p -> (p | r) -> d <= p) /\
  (forall d r, In (Trial d r) log -> ~ Z.prime d ->
               r mod d <> 0 /\
               forall inner, (0 < inner)%nat ->
                             strip inner d r 0 = Done (r, 0)).
Proof.
  intros Hn Hf log.
  destruct (ispowerful_spec fuel n Hn Hf) as (l & v & Hrun & _ & _ & Hev).
  subst log. rewrite Hrun. unfold trace. cbn [fst].
  rewrite Forall_forall in Hev.
  split.
  - intros d r Hin p Hp Hpr.
    specialize (Hev _ Hin). cbn in Hev. destruct Hev as (_ & _ & Hnd).
    pose proof (Z.prime_ge_2 p Hp).
    destruct (Z_le_gt_dec d p) as [H' | H']; [exact H' |].
    exfalso. apply (Hnd p); [lia | exact Hpr].
  - intros d r Hin Hnp.
    specialize (Hev _ Hin). cbn in Hev. destruct Hev as (Hd & _ & Hnd & _).
    assert (Hm : r mod d <> 0).
    { intros E. apply Hnp. apply (nodiv_prime d r); [lia | exact Hnd |].
      apply Z.mod_divide; [lia | exact E]. }
    split; [exact Hm |].
    intros inner Hi. apply strip_zero; [exact Hi | lia | exact Hm].
Qed.

Lemma no_factor_below_divisor_1225 :
  (1 <= 1225 < modulus /\ (fuel_for 1225 <= fuel_for 1225)%nat) /\
  let log := trace (ispowerful_fuel (fuel_for 1225) 1225) in
  (forall d r, In (Compare d r) log ->
               forall p, Z.prime p -> (p | r) -> d <= p) /\
  (forall d r, In (Trial d r) log -> ~ Z.prime d ->
               r mod d <> 0 /\
               forall inner, (0 < inner)%nat ->
                             strip inner d r 0 = Done (r, 0)).
Proof.
  assert (Hn : 1 <= 1225 < modulus) by (split; [lia | reflexivity]).
  assert (Hf : (fuel_for 1225 <= fuel_for 1225)%nat) by lia.
  split; [split; [exact Hn | exact Hf] |].
  exact (no_factor_below_divisor 1225 (fuel_for 1225) Hn Hf).
Defined.

Lemma strip_self (inner : nat) (d : Z) :
  2 <= d -> (1 < inner)%nat -> strip inner d d 0 = Done (1, 1).
Proof.
  intros Hd Hi. destruct inner as [| [| inner]]; try lia. cbn [strip].
  destruct (Z.eqb_spec d 0); [lia |].
  rewrite Z.mod_same, Z.div_same by lia.
  change (0 =? 0) with true. cbv iota. change (wrap (0 + 1)) with 1.
  rewrite Z.mod_1_l by lia. reflexivity.
Qed.

(** C9: [ispowerful], which tests the second candidate of each pair
    without comparing its square with the number, returns what the loop
    that compares before every candidate returns; a candidate that divides
    a number below its square is that number, and its loop ends with
    exponent 1, which makes [ispowerful] return 0. *)
Theorem unguarded_equals_guarded (n : Z) (fuel : nat) :
  1 <= n < modulus -> (fuel_for n <= fuel)%nat ->
  (exists v,
      result (ispowerful_fuel fuel n) = Done v /\
      classify_guarded fuel n = Done v) /\
  (forall d r,
      In (Trial d r) (trace (ispowerful_fuel fuel n)) ->
      r < d * d -> (d | r) ->
      r = d /\
      forall inner, (1 < inner)%nat -> strip inner d r 0 = Done (1, 1)).
Proof.
  intros Hn Hf.
  destruct (ispowerful_spec fuel n Hn Hf) as (log & v & Hrun & Hcl & _ & Hev).
  destruct (classify_guarded_spec fuel n Hn Hf) as (v' & Hg & Hcl').
  rewrite Hrun. unfold result, trace. cbn [fst snd].
  split.
  - exists v. split; [reflexivity |].
    rewrite Hg. f_equal. now apply (classified_unique n).
  - intros d r Hin Hsq Hdr.
    rewrite Forall_forall in Hev. specialize (Hev _ Hin). cbn in Hev.
    destruct Hev as (Hd & Hr & Hnd & _).
    assert (Hle : d <= r) by (apply Z.divide_pos_le; [lia | exact Hdr]).
    assert (Hp : Z.prime r)
      by (apply (nodiv_square_prime r d); (assumption || lia)).
    assert (E : r = d).
    { destruct (Z.eq_dec r d) as [E | Hne]; [exact E |].
      exfalso. apply (proj2 Hp d); [lia | exact Hdr]. }
    split; [exact E |]. subst r.
    intros inner Hi. apply strip_self; lia.
Qed.

Lemma unguarded_equals_guarded_175 :
  (1 <= 175 < modulus /\ (fuel_for 175 <= fuel_for 175)%nat) /\
  (exists v,
      result (ispowerful_fuel (fuel_for 175) 175) = Done v /\
      classify_guarded (fuel_for 175) 175 = Done v) /\
  (forall d r,
      In (Trial d r) (trace (ispowerful_fuel (fuel_for 175) 175)) ->
      r < d * d -> (d | r) ->
      r = d /\
      forall inner, (1 < inner)%nat -> strip inner d r 0 = Done (1, 1)).
Proof.
  assert (Hn : 1 <= 175 < modulus) by (split; [lia | reflexivity]).
  assert (Hf : (fuel_for 175 <= fuel_for 175)%nat) by lia.
  split; [split; [exact Hn | exact Hf] |].
  exact (unguarded_equals_guarded 175 (fuel_for 175) Hn Hf).
Defined.

(** C10: the loop for the factor 2 written with [&] and [>>] gives, on
    every input and from every exponent, what the loop written with [%]
    and [/] gives: the same number left and the same exponent, and no
    result where the other has none. *)
Theorem strip2_bitwise_refines_arith (fuel : nat) (n e : Z) :
  strip2 fuel n e = strip2_arith fuel n e.
Proof. now rewrite strip2_strip, strip2_arith_strip. Qed.

(** On a positive [unsigned long int] both loops end. *)
Lemma strip2_ends (fuel : nat) (n : Z) :
  1 <= n < modulus -> (64 < fuel)%nat ->
  exists r e,
    strip2 fuel n 0 = Done (r, e) /\ strip2_arith fuel n 0 = Done (r, e) /\
    n = 2 ^ e * r /\ r mod 2 <> 0.
Proof.
  intros Hn Hf.
  destruct (strip_ok fuel 2 n ltac:(lia) Hn Hf) as (r & e & Hs & _ & Hne & _ & Hm).
  exists r, e. rewrite strip2_strip, strip2_arith_strip. auto.
Qed.

(* ================================================================= *)
(** ** The properties of [main] *)


(** An argument that starts with no number at all is taken for 0. *)
Lemma no_number_taken_for_0 (prog arg : string) :
  Cli.scan arg = None ->
  Cli.main [prog; arg] = Cli.mkRun [Cli.Value (-1)] [0] (Done Cli.EXIT_SUCCESS).
Proof.
  intros E. unfold Cli.main, Cli.strtol. cbn [List.length nth].
  rewrite E. reflexivity.
Qed.

(* ================================================================= *)
(** ** More fuel *)

Ltac run_body_in H :=
  unfold wheel_body, bind, tell, lift, ret in H; cbv beta iota zeta in H.

Lemma wheel_body_more_fuel (inner inner' : nat) (d r : Z)
      (l : list event) (p : pass) :
  wheel_body inner d r = (l, Done p) -> (inner <= inner')%nat ->
  wheel_body inner' d r = (l, Done p).
Proof.
  intros H Hle. run_body_in H. run_body.
  destruct (strip inner d r 0) as [[r1 e1] | |] eqn:E1;
    cbv beta iota in H; try discriminate H.
  rewrite (strip_more_fuel inner inner' d r 0 (r1, e1) E1 Hle).
  cbv beta iota.
  destruct (e1 =? 1); [exact H |].
  destruct (strip inner (wrap (d + 2)) r1 0) as [[r2 e2] | |] eqn:E2;
    cbv beta iota in H; try discriminate H.
  rewrite (strip_more_fuel inner inner' _ r1 0 (r2, e2) E2 Hle).
  cbv beta iota. exact H.
Qed.

Lemma wheel_more_fuel (inner inner' : nat) :
  (inner <= inner')%nat ->
  forall (fuel fuel' : nat) (d r : Z) (l : list event) (v : Z),
    wheel inner fuel d r = (l, Done v) -> (fuel <= fuel')%nat ->
    wheel inner' fuel' d r = (l, Done v).
Proof.
  intros Hin.
  induction fuel as [| fuel IH]; intros fuel' d r l v H Hle;
    [discriminate H |].
  destruct fuel' as [| fuel']; [lia |].
  rewrite wheel_S in H. rewrite wheel_S.
  destruct (wrap (d * d) <=? r); [| exact H].
  destruct (wheel_body inner d r) as [lb [[d' r' | v0] | |]] eqn:Eb;
    try discriminate H.
  - rewrite (wheel_body_more_fuel inner inner' d r lb _ Eb Hin).
    destruct (wheel inner fuel d' r') as [l' o] eqn:Ew.
    injection H as <- ->.
    now rewrite (IH fuel' d' r' l' v Ew ltac:(lia)).
  - now rewrite (wheel_body_more_fuel inner inner' d r lb _ Eb Hin).
Qed.

(** A run that ended keeps its events and its value when every loop is
    given more rounds. *)
Lemma ispowerful_more_fuel (fuel fuel' : nat) (n : Z)
      (l : list event) (v : Z) :
  ispowerful_fuel fuel n = (l, Done v) -> (fuel <= fuel')%nat ->
  ispowerful_fuel fuel' n = (l, Done v).
Proof.
  unfold ispowerful_fuel. intros H Hle.
  destruct (n =? 0); [exact H |].
  rewrite strip2_strip in *. unfold bind, lift, ret in *.
  destruct (strip fuel 2 n 0) as [[r1 e1] | |] eqn:E1; try discriminate H.
  rewrite (strip_more_fuel fuel fuel' 2 n 0 (r1, e1) E1 Hle).
  cbv beta iota in *.
  destruct (e1 =? 1); [exact H |].
  destruct (strip fuel 3 r1 0) as [[r2 e2] | |] eqn:E2; try discriminate H.
  rewrite (strip_more_fuel fuel fuel' 3 r1 0 (r2, e2) E2 Hle).
  cbv beta iota in *.
  destruct (e2 =? 1); [exact H |].
  destruct (wheel fuel fuel 5 r2) as [l' o] eqn:Ew.
  cbn [app] in H. injection H as <- ->.
  now rewrite (wheel_more_fuel fuel fuel' Hle fuel fuel' 5 r2 l' v Ew Hle).
Qed.

Lemma ispowerful_from_fuel (fuel : nat) (n : Z) (l : list event) (v : Z) :
  ispowerful_fuel fuel n = (l, Done v) -> (fuel <= 64)%nat ->
  ispowerful n = (l, Done v).
Proof.
  intros H Hle. apply (ispowerful_more_fuel fuel); [exact H |].
  unfold fuel_for. lia.
Qed.

(* ================================================================= *)
(** ** The run before and in the wheel phase *)

(** On a positive [unsigned long int], either 2 or 3 divides the number
    once and the run returns 0 at once, or the run is that of the wheel
    phase from 5 on what is left. *)
Lemma prelude_spec (fuel : nat) (n : Z) :
  1 <= n < modulus -> (64 < fuel)%nat ->
  ispowerful_fuel fuel n = ([], Done 0) \/
  exists r,
    1 <= r <= n /\ (r | n) /\ head_inv 5 r /\
    ispowerful_fuel fuel n = wheel fuel fuel 5 r.
Proof.
  intros Hn Hf. unfold ispowerful_fuel.
  destruct (Z.eqb_spec n 0) as [-> | _]; [lia |].
  rewrite strip2_strip.
  destruct (trial_step fuel 2 3 n Hf) as
    (r1 & e1 & Hs1 & Hb1 & [[E1 Hnp] | (E1 & Hiff1 & Hn1 & _)]);
    try lia; try assumption.
  { intros k Hk. lia. }
  { intros r0 H0. exact H0. }
  { left. unfold bind, lift, ret. now rewrite Hs1, E1. }
  destruct (strip_ok fuel 2 n ltac:(lia) Hn Hf)
    as (r1' & e1' & Hs1' & _ & Hd1 & _ & _).
  rewrite Hs1 in Hs1'. injection Hs1' as <- <-.
  destruct (trial_step fuel 3 5 r1 Hf) as
    (r2 & e2 & Hs2 & Hb2 & [[E2 Hnp] | (E2 & Hiff2 & Hn2 & _)]);
    try lia; try assumption.
  { intros r0 H0. apply (nodiv_skip r0 4 2 H0); [lia | now exists 2]. }
  { left. unfold bind, lift, ret. now rewrite Hs1, E1, Hs2, E2. }
  destruct (strip_ok fuel 3 r1 ltac:(lia) ltac:(lia) Hf)
    as (r2' & e2' & Hs2' & _ & Hd2 & _ & _).
  rewrite Hs2 in Hs2'. injection Hs2' as <- <-.
  right. exists r2. split; [lia |]. split; [| split].
  - rewrite Hd1, Hd2. apply Z.divide_mul_r, Z.divide_mul_r, Z.divide_refl.
  - repeat split; try lia; try assumption.
  - unfold bind, lift, ret. rewrite Hs1, E1, Hs2, E2.
    now destruct (wheel fuel fuel 5 r2).
Qed.

(** What [ispowerful] returns on an [unsigned long int]. *)
Lemma ispowerful_done (fuel : nat) (n : Z) :
  0 <= n < modulus -> (fuel_for n <= fuel)%nat ->
  exists log v,
    ispowerful_fuel fuel n = (log, Done v) /\
    (n = 0 /\ v = -1 \/ 1 <= n /\ classified n v).
Proof.
  intros Hn Hf.
  destruct (Z.eq_dec n 0) as [-> | Hn0].
  - exists [], (-1). split; [reflexivity | now left].
  - destruct (ispowerful_spec fuel n ltac:(lia) Hf) as (log & v & Hrun & Hcl & _).
    exists log, v. split; [exact Hrun | right; split; [lia | exact Hcl]].
Qed.

(* ================================================================= *)
(** ** What is left of the number divides it *)

Lemma strip_divides (fuel : nat) :
  forall d r e r' e', strip fuel d r e = Done (r', e') -> (r' | r).
Proof.
  induction fuel as [| fuel IH]; intros d r e r' e' H; [discriminate H |].
  cbn [strip] in H.
  destruct (Z.eqb_spec d 0) as [_ | Hd]; [discriminate H |].
  destruct (Z.eqb_spec (r mod d) 0) as [Hm | _].
  - apply Z.divide_trans with (r / d); [exact (IH _ _ _ _ _ H) |].
    exists d. pose proof (Z.div_mod r d Hd). lia.
  - injection H as <- _. apply Z.divide_refl.
Qed.

Lemma wheel_body_divides (inner : nat) (d r : Z) :
  Forall (fun e => (Events.number_of e | r)) (fst (wheel_body inner d r)) /\
  forall d' r', snd (wheel_body inner d r) = Done (Next d' r') -> (r' | r).
Proof.
  run_body.
  destruct (strip inner d r 0) as [[r1 e1] | |] eqn:E1; cbv beta iota;
    cbn [app fst snd];
    try (split; [repeat constructor; apply Z.divide_refl | discriminate]).
  pose proof (strip_divides _ _ _ _ _ _ E1) as D1.
  destruct (e1 =? 1); cbn [app fst snd];
    try (split; [repeat constructor; apply Z.divide_refl | discriminate]).
  destruct (strip inner (wrap (d + 2)) r1 0) as [[r2 e2] | |] eqn:E2;
    cbv beta iota; cbn [app fst snd];
    try (split; [repeat constructor; (apply Z.divide_refl || exact D1)
                | discriminate]).
  pose proof (strip_divides _ _ _ _ _ _ E2) as D2.
  destruct (e2 =? 1); cbn [app fst snd];
    (split; [repeat constructor; (apply Z.divide_refl || exact D1) |]);
    try discriminate.
  intros d' r' H. injection H as _ <-. now apply Z.divide_trans with r1.
Qed.

Lemma wheel_divides (inner : nat) :
  forall (fuel : nat) (d r : Z),
    Forall (fun e => (Events.number_of e | r)) (trace (wheel inner fuel d r)).
Proof.
  induction fuel as [| fuel IH]; intros d r; [constructor |].
  rewrite wheel_S.
  destruct (wrap (d * d) <=? r);
    [| repeat constructor; apply Z.divide_refl].
  destruct (wheel_body_divides inner d r) as [Hl Hn].
  destruct (wheel_body inner d r) as [lb [[d' r' | v] | |]];
    cbn [fst snd] in *;
    try (constructor; [apply Z.divide_refl | exact Hl]).
  specialize (IH d' r'). specialize (Hn d' r' eq_refl).
  destruct (wheel inner fuel d' r') as [l' o]. unfold trace in *.
  cbn [fst] in *.
  constructor; [apply Z.divide_refl |].
  apply Forall_app. split; [exact Hl |].
  eapply Forall_impl; [| exact IH].
  intros e He. now apply Z.divide_trans with r'.
Qed.

(** X1: the number of every event of a run, what is left of the input
    when a comparison or a test is made, divides the input; this holds
    for every input and every fuel. *)
Theorem residual_divides_input (fuel : nat) (n : Z) :
  Forall (fun e => (Events.number_of e | n))
         (trace (ispowerful_fuel fuel n)).
Proof.
  unfold ispowerful_fuel.
  destruct (n =? 0); [constructor |].
  rewrite strip2_strip. unfold bind, lift, ret.
  destruct (strip fuel 2 n 0) as [[r1 e1] | |] eqn:E1; try constructor.
  cbv beta iota.
  destruct (e1 =? 1); [constructor |].
  destruct (strip fuel 3 r1 0) as [[r2 e2] | |] eqn:E2; try constructor.
  cbv beta iota.
  destruct (e2 =? 1); [constructor |].
  pose proof (wheel_divides fuel fuel 5 r2) as H.
  destruct (wheel fuel fuel 5 r2) as [l o]. unfold trace in *.
  cbn [fst app] in *.
  eapply Forall_impl; [| exact H].
  intros e He. apply Z.divide_trans with r2; [exact He |].
  apply Z.divide_trans with r1; eapply strip_divides; eassumption.
Qed.

(* ================================================================= *)
(** ** Inputs below the square of 4294967291 *)

Lemma wheel_within_root (inner : nat) (Hf : (64 < inner)%nat) (bound : Z) :
  bound < 18446744030759878681 ->
  forall (fuel : nat) (d r : Z),
    head_inv d r -> r <= bound -> d <= 4294967291 ->
    Forall (Events.within_root bound) (trace (wheel inner fuel d r)).
Proof.
  intros Hb.
  induction fuel as [| fuel IH]; intros d r Hinv Hr Hd; [constructor |].
  rewrite wheel_S.
  pose proof Hinv as (H5 & Hm & Hrr & Hn & Hone).
  assert (Hsq : d * d <= ULong.max).
  { change ULong.max with 18446744073709551615. nia. }
  assert (Hcmp : Events.within_root bound (Compare d r))
    by (cbn; split; assumption).
  rewrite (wrap_small (d * d))
    by (rewrite modulus_eq; change ULong.max with 18446744073709551615 in Hsq; nia).
  destruct (Z.leb_spec (d * d) r) as [Hc | Hc];
    [| repeat constructor; assumption].
  assert (Hw : wrap (d * d) <= r).
  { rewrite wrap_small; [exact Hc |].
    rewrite modulus_eq. change ULong.max with 18446744073709551615 in Hsq. nia. }
  assert (Htr : Events.within_root bound (Trial d r)) by (cbn; intros _; lia).
  assert (Htr2 : forall r1, Events.within_root bound (Trial (d + 2) r1)).
  { intros r1. cbn. intros E. exfalso. euclid. }
  destruct (wheel_body_spec inner d r Hf Hinv Hw)
    as [Hnp | r1 Hnp Hr1 Hn1 | r1 r2 Hr1 Hn1 Hinv2 Hle Hdr Hiff].
  - repeat constructor; auto.
  - repeat constructor; auto.
  - assert (Hd6 : d + 6 <= 4294967291).
    { assert (d < 4294967291) by nia. euclid. }
    specialize (IH (d + 6) r2 Hinv2 ltac:(lia) Hd6).
    destruct (wheel inner fuel (d + 6) r2) as [l' o]. unfold trace in *.
    cbn [fst app] in *.
    repeat (constructor; [solve [auto] |]). exact IH.
Qed.

Lemma ispowerful_within_root (n : Z) (fuel : nat) :
  1 <= n < 18446744030759878681 -> (fuel_for n <= fuel)%nat ->
  Forall (Events.within_root n) (trace (ispowerful_fuel fuel n)).
Proof.
  intros Hn Hfuel.
  destruct (fuel_for_enough fuel n ltac:(lia) Hfuel) as [Hf _].
  destruct (prelude_spec fuel n) as [-> | (r & Hr & _ & Hinv & ->)];
    [rewrite modulus_eq; lia | exact Hf | constructor |].
  apply wheel_within_root; (assumption || lia).
Qed.

(** X2: on an input below 18446744030759878681, the square of
    4294967291, no square that the loop condition compares wraps, and
    the first candidate of each pair is tested only while its square is
    at most the input: below that bound the loop stops at the square
    root. *)
Theorem no_wrap_below_large_square (n : Z) (fuel : nat) :
  1 <= n < 18446744030759878681 -> (fuel_for n <= fuel)%nat ->
  (forall d r, In (Compare d r) (trace (ispowerful_fuel fuel n)) ->
               d * d <= ULong.max /\ wrap (d * d) = d * d) /\
  (forall d r, In (Trial d r) (trace (ispowerful_fuel fuel n)) ->
               d mod 6 = 5 -> d * d <= n).
Proof.
  intros Hn Hfuel.
  pose proof (ispowerful_within_root n fuel Hn Hfuel) as Hall.
  rewrite Forall_forall in Hall.
  split.
  - intros d r Hin. destruct (Hall _ Hin) as [_ Hsq].
    split; [exact Hsq |]. apply wrap_small.
    change ULong.max with (modulus - 1) in Hsq.
    assert (0 <= d * d) by nia. lia.
  - intros d r Hin Hm. exact (Hall _ Hin Hm).
Qed.

Lemma no_wrap_below_large_square_52441 :
  (1 <= 52441 < 18446744030759878681 /\
   (fuel_for 52441 <= fuel_for 52441)%nat) /\
  (forall d r,
      In (Compare d r) (trace (ispowerful_fuel (fuel_for 52441) 52441)) ->
      d * d <= ULong.max /\ wrap (d * d) = d * d) /\
  (forall d r,
      In (Trial d r) (trace (ispowerful_fuel (fuel_for 52441) 52441)) ->
      d mod 6 = 5 -> d * d <= 52441).
Proof.
  assert (Hn : 1 <= 52441 < 18446744030759878681) by lia.
  assert (Hf : (fuel_for 52441 <= fuel_for 52441)%nat) by lia.
  split; [split; [exact Hn | exact Hf] |].
  exact (no_wrap_below_large_square 52441 (fuel_for 52441) Hn Hf).
Defined.

(* ================================================================= *)
(** ** The factors 2 and 3 *)

Lemma power_split (d e : Z) : 2 <= e -> d ^ e = d * d * d ^ (e - 2).
Proof.
  intros He. replace e with (2 + (e - 2)) at 1 by lia.
  rewrite Z.pow_add_r, Z.pow_2_r by lia. reflexivity.
Qed.

(** X3: when 2 divides the input once (the input is 2 modulo 4), or 3
    divides it once (it is a multiple of 3 and not of 9), [ispowerful]
    returns 0 before the wheel phase: no comparison and no test of a
    candidate is made. *)
Theorem single_2_or_3_returns_early (n : Z) (fuel : nat) :
  1 <= n < modulus -> (64 < fuel)%nat ->
  n mod 4 = 2 \/ (n mod 3 = 0 /\ n mod 9 <> 0) ->
  ispowerful_fuel fuel n = ([], Done 0).
Proof.
  intros Hn Hf Hcase. unfold ispowerful_fuel.
  destruct (Z.eqb_spec n 0) as [-> | _]; [lia |].
  rewrite strip2_strip. unfold bind, lift, ret.
  destruct (strip_ok fuel 2 n ltac:(lia) Hn Hf)
    as (r1 & e1 & Hs1 & He1 & Hd1 & Hr1 & Hm1).
  rewrite Hs1. cbv beta iota.
  destruct (Z.eqb_spec e1 1) as [_ | Hne1]; [reflexivity |].
  assert (H4 : e1 = 0 \/ (4 | n)).
  { destruct (Z.eq_dec e1 0) as [-> | H0]; [now left | right].
    rewrite Hd1, (power_split 2 e1) by lia.
    exists (2 ^ (e1 - 2) * r1). ring. }
  destruct (strip_ok fuel 3 r1 ltac:(lia) ltac:(lia) Hf)
    as (r2 & e2 & Hs2 & He2 & Hd2 & Hr2 & Hm2).
  rewrite Hs2. cbv beta iota.
  destruct (Z.eqb_spec e2 1) as [_ | Hne2]; [reflexivity |].
  exfalso.
  destruct Hcase as [H2 | [H3 H9]].
  - destruct H4 as [-> | [c Hc]].
    + rewrite Z.pow_0_r, Z.mul_1_l in Hd1. subst r1. euclid.
    + euclid.
  - destruct (Z.eq_dec e2 0) as [-> | H0].
    + rewrite Z.pow_0_r, Z.mul_1_l in Hd2. subst r2.
      assert (H3n : (3 | 2 ^ e1 * r1))
        by (rewrite <- Hd1; apply Z.mod_divide; [lia | exact H3]).
      apply Z.divide_prime_mul in H3n; [| exact Z.prime_3].
      destruct H3n as [H | H].
      * pose proof (Z.divide_prime_pp 3 2 e1 Z.prime_3 Z.prime_2
                      ltac:(lia) H). lia.
      * apply Hm2. apply Z.mod_divide; [lia | exact H].
    + apply H9. apply Z.mod_divide; [lia |].
      rewrite Hd1, Hd2, (power_split 3 e2) by lia.
      exists (2 ^ e1 * 3 ^ (e2 - 2) * r2). ring.
Qed.

Lemma single_2_or_3_returns_early_12 :
  (1 <= 12 < modulus /\ (64 < 65)%nat /\
   (12 mod 4 = 2 \/ (12 mod 3 = 0 /\ 12 mod 9 <> 0))) /\
  ispowerful_fuel 65 12 = ([], Done 0).
Proof.
  assert (Hn : 1 <= 12 < modulus) by (split; [lia | reflexivity]).
  assert (Hf : (64 < 65)%nat) by lia.
  assert (Hc : 12 mod 4 = 2 \/ (12 mod 3 = 0 /\ 12 mod 9 <> 0))
    by (right; split; [reflexivity | discriminate]).
  split; [split; [exact Hn | split; [exact Hf | exact Hc]] |].
  exact (single_2_or_3_returns_early 12 65 Hn Hf Hc).
Defined.

(* ================================================================= *)
(** ** Products and powers *)

Lemma powerful_mul (m n : Z) : powerful m -> powerful n -> powerful (m * n).
Proof.
  intros Hm Hn p Hp Hd.
  apply Z.divide_prime_mul in Hd; [| exact Hp].
  destruct Hd as [Hd | Hd].
  - apply Z.divide_mul_l. now apply Hm.
  - apply Z.divide_mul_r. now apply Hn.
Qed.

Lemma powerful_coprime_factor (m n : Z) :
  Z.gcd m n = 1 -> powerful (m * n) -> powerful m.
Proof.
  intros Hg Hmn p Hp Hd.
  assert (Hpn : ~ (p | n)).
  { intros Hn. pose proof (Z.gcd_greatest _ _ _ Hd Hn) as H1.
    rewrite Hg in H1. apply Z.divide_1_r in H1.
    pose proof (Z.prime_ge_2 p Hp). lia. }
  assert (Hc : Z.coprime (p * p) n)
    by (apply Z.coprime_mul_l; now apply Z.coprime_prime_l).
  apply Z.gauss with n; [| exact Hc].
  rewrite (Z.mul_comm n m). apply Hmn; [exact Hp |]. now apply Z.divide_mul_l.
Qed.

Lemma powerful_pow (a k : Z) : 2 <= k -> powerful (a ^ k).
Proof.
  intros Hk p Hp Hd.
  assert (Hpa : (p | a)).
  { revert Hd. pattern k. apply natlike_ind; [| | lia].
    - rewrite Z.pow_0_r. intros H. apply Z.divide_1_r in H.
      pose proof (Z.prime_ge_2 p Hp). lia.
    - intros x Hx IH. rewrite Z.pow_succ_r by lia. intros H.
      apply Z.divide_prime_mul in H; tauto. }
  rewrite (power_split a k Hk). apply Z.divide_mul_l.
  now apply mul_divide_mono.
Qed.

(** The value of a run says whether the input is powerful. *)
Lemma result_1_iff (n : Z) :
  1 <= n < modulus -> (result (ispowerful n) = Done 1 <-> powerful n).
Proof.
  intros Hn.
  destruct (ispowerful_spec (fuel_for n) n Hn (Nat.le_refl _))
    as (log & v & Hrun & Hcl & _).
  unfold ispowerful. rewrite Hrun. unfold result. cbn [snd].
  split.
  - intros E. injection E as ->. destruct Hcl as [[_ H] | [H _]]; [exact H | lia].
  - intros Hp. destruct Hcl as [[-> _] | [_ H]]; [reflexivity | contradiction].
Qed.

(** X4: for coprime positive numbers whose product fits an
    [unsigned long int], [ispowerful] returns 1 on the product if and
    only if it returns 1 on both factors. *)
Theorem coprime_product (m n : Z) :
  1 <= m -> 1 <= n -> m * n < modulus -> Z.gcd m n = 1 ->
  (result (ispowerful (m * n)) = Done 1 <->
   result (ispowerful m) = Done 1 /\ result (ispowerful n) = Done 1).
Proof.
  intros Hm Hn Hmn Hg.
  rewrite !result_1_iff by nia.
  split.
  - intros H. split.
    + exact (powerful_coprime_factor m n Hg H).
    + rewrite Z.mul_comm in H. rewrite Z.gcd_comm in Hg.
      exact (powerful_coprime_factor n m Hg H).
  - intros [H1 H2]. now apply powerful_mul.
Qed.

Lemma coprime_product_8_9 :
  (1 <= 8 /\ 1 <= 9 /\ 8 * 9 < modulus /\ Z.gcd 8 9 = 1) /\
  (result (ispowerful (8 * 9)) = Done 1 <->
   result (ispowerful 8) = Done 1 /\ result (ispowerful 9) = Done 1).
Proof.
  assert (H1 : 1 <= 8) by lia.
  assert (H2 : 1 <= 9) by lia.
  assert (H3 : 8 * 9 < modulus) by reflexivity.
  assert (H4 : Z.gcd 8 9 = 1) by reflexivity.
  split; [repeat split; assumption |].
  exact (coprime_product 8 9 H1 H2 H3 H4).
Defined.

(** X5: when [ispowerful] returns 1 on two numbers and their product
    fits an [unsigned long int], it returns 1 on the product, whether the
    two have common factors or not. *)
Theorem product_of_powerful (m n : Z) :
  1 <= m -> 1 <= n -> m * n < modulus ->
  result (ispowerful m) = Done 1 -> result (ispowerful n) = Done 1 ->
  result (ispowerful (m * n)) = Done 1.
Proof.
  intros Hm Hn Hmn.
  rewrite !result_1_iff by nia. apply powerful_mul.
Qed.

Lemma product_of_powerful_8_4 :
  (1 <= 8 /\ 1 <= 4 /\ 8 * 4 < modulus /\
   result (ispowerful 8) = Done 1 /\ result (ispowerful 4) = Done 1) /\
  result (ispowerful (8 * 4)) = Done 1.
Proof.
  assert (H1 : 1 <= 8) by lia.
  assert (H2 : 1 <= 4) by lia.
  assert (H3 : 8 * 4 < modulus) by reflexivity.
  assert (H4 : result (ispowerful 8) = Done 1) by reflexivity.
  assert (H5 : result (ispowerful 4) = Done 1) by reflexivity.
  split; [repeat split; assumption |].
  exact (product_of_powerful 8 4 H1 H2 H3 H4 H5).
Defined.

(** X6: [ispowerful] returns 1 on every power [a ^ k] with [a >= 1] and
    [k >= 2] that fits an [unsigned long int]: squares, cubes and higher
    powers. *)
Theorem perfect_power (a k : Z) :
  1 <= a -> 2 <= k -> a ^ k < modulus ->
  result (ispowerful (a ^ k)) = Done 1.
Proof.
  intros Ha Hk Hlt.
  assert (0 < a ^ k) by (apply Z.pow_pos_nonneg; lia).
  apply result_1_iff; [lia |]. now apply powerful_pow.
Qed.

Lemma perfect_power_6_5 :
  (1 <= 6 /\ 2 <= 5 /\ 6 ^ 5 < modulus) /\
  result (ispowerful (6 ^ 5)) = Done 1.
Proof.
  assert (H1 : 1 <= 6) by lia.
  assert (H2 : 2 <= 5) by lia.
  assert (H3 : 6 ^ 5 < modulus) by reflexivity.
  split; [repeat split; assumption |].
  exact (perfect_power 6 5 H1 H2 H3).
Defined.

(* ================================================================= *)
(** ** Where 1 is returned *)

Lemma wheel_body_returns_0 (inner : nat) (d r : Z) (l : list event) (v : Z) :
  wheel_body inner d r = (l, Done (Return v)) -> v = 0.
Proof.
  intros H. run_body_in H.
  destruct (strip inner d r 0) as [[r1 e1] | |];
    cbv beta iota in H; try discriminate H.
  destruct (e1 =? 1); [now injection H as _ <- |].
  destruct (strip inner (wrap (d + 2)) r1 0) as [[r2 e2] | |];
    cbv beta iota in H; try discriminate H.
  destruct (e2 =? 1); [now injection H as _ <- | discriminate H].
Qed.

Lemma wheel_ends_with_1 (inner : nat) :
  forall (fuel : nat) (d r : Z) (l : list event),
    wheel inner fuel d r = (l, Done 1) ->
    exists pre d', l = pre ++ [Compare d' 1] /\ (wrap (d' * d') <=? 1) = false.
Proof.
  induction fuel as [| fuel IH]; intros d r l H; [discriminate H |].
  rewrite wheel_S in H.
  destruct (wrap (d * d) <=? r) eqn:Ec.
  - destruct (wheel_body inner d r) as [lb [[d' r' | v] | |]] eqn:Eb;
      try discriminate H.
    + destruct (wheel inner fuel d' r') as [l' o] eqn:Ew.
      injection H as <- ->.
      destruct (IH d' r' l' Ew) as (pre & d0 & -> & Hc).
      exists (Compare d r :: lb ++ pre), d0.
      split; [| exact Hc]. cbn [app]. now rewrite app_assoc.
    + injection H as _ ->.
      pose proof (wheel_body_returns_0 _ _ _ _ _ Eb). lia.
  - destruct (Z.eqb_spec r 1) as [-> | Hne]; [| discriminate H].
    injection H as <-. exists [], d. split; [reflexivity | exact Ec].
Qed.

(** X7: [ispowerful] returns 1 only from its last statement: in a run
    that returns 1, the last event is an evaluation of the loop condition
    that fails with 1 left of the number; every other return is 0 or
    -1. *)
Theorem returns_1_at_the_end (fuel : nat) (n : Z) :
  result (ispowerful_fuel fuel n) = Done 1 ->
  exists pre d,
    trace (ispowerful_fuel fuel n) = pre ++ [Compare d 1] /\
    (wrap (d * d) <=? 1) = false.
Proof.
  unfold ispowerful_fuel, result, trace.
  destruct (n =? 0); [discriminate |].
  rewrite strip2_strip. unfold bind, lift, ret.
  destruct (strip fuel 2 n 0) as [[r1 e1] | |]; try discriminate.
  cbv beta iota.
  destruct (e1 =? 1); [discriminate |].
  destruct (strip fuel 3 r1 0) as [[r2 e2] | |]; try discriminate.
  cbv beta iota.
  destruct (e2 =? 1); [discriminate |].
  destruct (wheel fuel fuel 5 r2) as [l o] eqn:Ew. cbn [fst snd app].
  intros ->. exact (wheel_ends_with_1 fuel fuel 5 r2 l Ew).
Qed.

Lemma returns_1_at_the_end_49 :
  result (ispowerful_fuel 65 49) = Done 1 /\
  exists pre d,
    trace (ispowerful_fuel 65 49) = pre ++ [Compare d 1] /\
    (wrap (d * d) <=? 1) = false.
Proof.
  assert (H : result (ispowerful_fuel 65 49) = Done 1) by reflexivity.
  split; [exact H |].
  exact (returns_1_at_the_end 65 49 H).
Defined.

(* ================================================================= *)
(** ** More on [main] *)

(** What [strtol] returns when [errno] is 0 before the call. *)
Lemma strtol_spec (arg : string) :
  match Cli.scan arg with
  | None => Cli.strtol arg 0 = (0, 0)
  | Some (v, _) =>
      (Cli.LONG_MIN <= v <= Cli.LONG_MAX /\ Cli.strtol arg 0 = (v, 0)) \/
      ((v < Cli.LONG_MIN \/ Cli.LONG_MAX < v) /\
       snd (Cli.strtol arg 0) = Cli.ERANGE)
  end.
Proof.
  unfold Cli.strtol. destruct (Cli.scan arg) as [[v rest] |]; [| reflexivity].
  destruct (Z.ltb_spec Cli.LONG_MAX v) as [H | H]; [right; split; auto |].
  destruct (Z.ltb_spec v Cli.LONG_MIN) as [H' | H']; [right; split; auto |].
  left. split; [lia | reflexivity].
Qed.

(** The run of [main] once [strtol] has returned a number from 0 to
    [LONG_MAX] and left [errno] at 0. *)
Lemma main_on_number (prog arg : string) (v : Z) :
  Cli.strtol arg 0 = (v, 0) -> 0 <= v <= Cli.LONG_MAX ->
  exists r,
    Cli.main [prog; arg] = Cli.mkRun [Cli.Value r] [v] (Done Cli.EXIT_SUCCESS) /\
    (v = 0 /\ r = -1 \/ 1 <= v /\ classified v r).
Proof.
  intros Hs Hv. unfold Cli.main. cbn [List.length nth].
  change (negb (Z.of_nat 2 =? 2)) with false. cbv iota.
  rewrite Hs. change (0 =? Cli.ERANGE) with false. cbv iota.
  destruct (Z.ltb_spec v 0) as [H | _]; [lia |].
  assert (Hr : 0 <= v < modulus).
  { rewrite modulus_eq. change Cli.LONG_MAX with 9223372036854775807 in Hv. lia. }
  rewrite (wrap_small v Hr).
  destruct (ispowerful_done (fuel_for v) v Hr (Nat.le_refl _))
    as (log & r & Hrun & Hcl).
  unfold ispowerful. rewrite Hrun. unfold result. cbn [snd].
  exists r. split; [reflexivity | exact Hcl].
Qed.


(** X9: when the argument starts with a number from 0 to [LONG_MAX],
    whatever follows the number, [main] calls [ispowerful] on that
    number, writes what it returns and ends with the success status: -1
    for 0, and otherwise 1 or 0 as the number is powerful or not. *)
Theorem main_accepts (prog arg rest : string) (v : Z) :
  Cli.scan arg = Some (v, rest) -> 0 <= v <= Cli.LONG_MAX ->
  exists r,
    Cli.main [prog; arg] = Cli.mkRun [Cli.Value r] [v] (Done Cli.EXIT_SUCCESS) /\
    (v = 0 /\ r = -1 \/
     1 <= v /\ (r = 1 /\ powerful v \/ r = 0 /\ ~ powerful v)).
Proof.
  intros Hscan Hv.
  apply main_on_number; [| exact Hv].
  pose proof (strtol_spec arg) as Hs. rewrite Hscan in Hs.
  destruct Hs as [[_ Hs] | [Hout _]]; [exact Hs |].
  change Cli.LONG_MIN with (-9223372036854775808) in Hout. lia.
Qed.

Lemma main_accepts_972_th :
  (Cli.scan "972th"%string = Some (972, "th"%string) /\
   0 <= 972 <= Cli.LONG_MAX) /\
  exists r,
    Cli.main ["ispowerful"; "972th"]%string =
      Cli.mkRun [Cli.Value r] [972] (Done Cli.EXIT_SUCCESS) /\
    (972 = 0 /\ r = -1 \/
     1 <= 972 /\ (r = 1 /\ powerful 972 \/ r = 0 /\ ~ powerful 972)).
Proof.
  assert (Hs : Cli.scan "972th"%string = Some (972, "th"%string))
    by reflexivity.
  assert (Hv : 0 <= 972 <= Cli.LONG_MAX) by (split; [lia | discriminate]).
  split; [split; [exact Hs | exact Hv] |].
  exact (main_accepts "ispowerful"%string "972th"%string "th"%string 972 Hs Hv).
Defined.

(** The calls of a run of [main]: none, or one on a number from 0 to
    [LONG_MAX]. *)
Lemma main_outcomes_calls (argv : list string) :
  Cli.calls (Cli.main argv) = [] \/
  exists v, Cli.calls (Cli.main argv) = [v] /\ 0 <= v <= Cli.LONG_MAX.
Proof.
  unfold Cli.main.
  destruct (negb (Z.of_nat (List.length argv) =? 2)); [now left |].
  pose proof (strtol_spec (nth 1 argv EmptyString)) as Hs.
  destruct (Cli.strtol (nth 1 argv EmptyString) 0) as [number errno] eqn:E.
  destruct (Z.eqb_spec errno Cli.ERANGE) as [_ | Herr]; [now left |].
  destruct (Z.ltb_spec number 0) as [_ | Hpos]; [now left |].
  assert (Hv : 0 <= number <= Cli.LONG_MAX).
  { destruct (Cli.scan (nth 1 argv EmptyString)) as [[v rest] |].
    - destruct Hs as [[Hv Hs] | [_ Hs]].
      + injection Hs as -> _. lia.
      + cbn [snd] in Hs. contradiction.
    - injection Hs as -> _. split; [lia | discriminate]. }
  assert (Hw : wrap number = number).
  { apply wrap_small. rewrite modulus_eq.
    change Cli.LONG_MAX with 9223372036854775807 in Hv. lia. }
  rewrite Hw.
  right. exists number. split; [| exact Hv].
  now destruct (result (ispowerful number)).
Qed.

(** X10: no run of [ispowerful] that [main] starts wraps: the number
    handed over is at most [LONG_MAX], below the square of 4294967291,
    so every square that the loop condition compares fits an
    [unsigned long int]. *)
Theorem main_never_wraps (argv : list string) (v : Z) :
  In v (Cli.calls (Cli.main argv)) ->
  forall d r, In (Compare d r) (trace (ispowerful v)) ->
              d * d <= ULong.max /\ wrap (d * d) = d * d.
Proof.
  intros Hin d r Hev.
  assert (Hv : 0 <= v <= Cli.LONG_MAX).
  { destruct (main_outcomes_calls argv) as [E | (w & E & Hw)];
      rewrite E in Hin; cbn in Hin; [contradiction |].
    destruct Hin as [<- | []]. exact Hw. }
  change Cli.LONG_MAX with 9223372036854775807 in Hv.
  destruct (Z.eq_dec v 0) as [-> | Hv0]; [contradiction Hev |].
  pose proof (ispowerful_within_root v (fuel_for v) ltac:(lia)
                (Nat.le_refl _)) as Hall.
  rewrite Forall_forall in Hall.
  destruct (Hall _ Hev) as [_ Hsq].
  split; [exact Hsq |]. apply wrap_small.
  change ULong.max with (modulus - 1) in Hsq.
  assert (0 <= d * d) by nia. lia.
Qed.

Lemma main_never_wraps_49 :
  (In 49 (Cli.calls (Cli.main ["ispowerful"; "49"]%string)) /\
   In (Compare 5 49) (trace (ispowerful 49))) /\
  5 * 5 <= ULong.max /\ wrap (5 * 5) = 5 * 5.
Proof.
  assert (H1 : In 49 (Cli.calls (Cli.main ["ispowerful"; "49"]%string)))
    by (vm_compute; auto).
  assert (H2 : In (Compare 5 49) (trace (ispowerful 49)))
    by (vm_compute; auto).
  split; [split; [exact H1 | exact H2] |].
  exact (main_never_wraps ["ispowerful"; "49"]%string 49 H1 5 49 H2).
Defined.

(* ================================================================= *)
(** ** Decimal and octal arguments *)

Ltac by_digit d :=
  do 10 (destruct d as [| d]; [try reflexivity; try lia |]); try lia.

Lemma digit_value_char (d : nat) :
  (d <= 9)%nat -> Cli.digit_value (Numeral.digit_char d) = Some (Z.of_nat d).
Proof. intros H. by_digit d. Qed.

Lemma value_from_nonneg (base : Z) (ds : list nat) :
  0 <= base -> forall acc, 0 <= acc -> 0 <= Numeral.value_from base acc ds.
Proof.
  intros Hb. induction ds as [| d ds IH]; intros acc Ha; [exact Ha |].
  cbn. apply IH. nia.
Qed.

(** The digits of a numeral are all taken, and nothing is left. *)
Lemma take_digits_numeral (base : Z) (ds : list nat) :
  Forall (fun d => (d <= 9)%nat /\ Z.of_nat d < base) ds ->
  forall count acc,
    Cli.take_digits base (Numeral.numeral ds) count acc =
    ((count + List.length ds)%nat, Numeral.value_from base acc ds,
     EmptyString).
Proof.
  induction 1 as [| d ds [Hd Hb] _ IH]; intros count acc.
  - cbn. now rewrite Nat.add_0_r.
  - cbn [Numeral.numeral Cli.take_digits].
    rewrite (digit_value_char d Hd).
    destruct (Z.ltb_spec (Z.of_nat d) base) as [_ | H]; [| lia].
    rewrite IH. cbn [List.length]. now rewrite Nat.add_succ_r.
Qed.

Lemma skip_space_numeral (d : nat) (ds : list nat) :
  (d <= 9)%nat ->
  Cli.skip_space (Numeral.numeral (d :: ds)) = Numeral.numeral (d :: ds).
Proof. intros H. by_digit d. Qed.

Lemma take_sign_numeral (d : nat) (ds : list nat) :
  (d <= 9)%nat ->
  Cli.take_sign (Numeral.numeral (d :: ds)) =
  (false, Numeral.numeral (d :: ds)).
Proof. intros H. by_digit d. Qed.

Lemma take_base_decimal (d : nat) (ds : list nat) :
  (1 <= d <= 9)%nat ->
  Cli.take_base (Numeral.numeral (d :: ds)) =
  (10, Numeral.numeral (d :: ds)).
Proof. intros H. by_digit d. Qed.

Lemma not_x_digit (d : nat) :
  (d <= 9)%nat ->
  (Ascii.eqb (Numeral.digit_char d) "x"%char ||
   Ascii.eqb (Numeral.digit_char d) "X"%char) = false.
Proof. intros H. by_digit d. Qed.

Lemma take_base_octal (ds : list nat) :
  Forall (fun d => (d <= 9)%nat) ds ->
  Cli.take_base (Numeral.numeral (0%nat :: ds)) =
  (8, Numeral.numeral (0%nat :: ds)).
Proof.
  intros H. destruct H as [| x xs Hx Hxs]; [reflexivity |].
  destruct Hxs as [| h hs Hh Hhs]; [reflexivity |].
  cbn [Numeral.numeral].
  change (Numeral.digit_char 0) with "0"%char.
  cbn [Cli.take_base]. now rewrite (not_x_digit x Hx).
Qed.

Lemma scan_decimal (d : nat) (ds : list nat) :
  (1 <= d <= 9)%nat -> Forall (fun x => (x <= 9)%nat) ds ->
  Cli.scan (Numeral.numeral (d :: ds)) =
  Some (Numeral.value 10 (d :: ds), EmptyString).
Proof.
  intros Hd Hds. unfold Cli.scan.
  rewrite skip_space_numeral, take_sign_numeral, take_base_decimal by lia.
  rewrite take_digits_numeral.
  - reflexivity.
  - constructor; [lia |].
    eapply Forall_impl; [| exact Hds]. cbn. lia.
Qed.

Lemma scan_octal (ds : list nat) :
  Forall (fun x => (x <= 7)%nat) ds ->
  Cli.scan (Numeral.numeral (0%nat :: ds)) =
  Some (Numeral.value 8 ds, EmptyString).
Proof.
  intros Hds. unfold Cli.scan.
  rewrite skip_space_numeral, take_sign_numeral, take_base_octal; try lia.
  - rewrite take_digits_numeral.
    + reflexivity.
    + constructor; [lia |].
      eapply Forall_impl; [| exact Hds]. cbn. lia.
  - eapply Forall_impl; [| exact Hds]. cbn. lia.
Qed.

Lemma main_on_scanned (prog arg : string) (v : Z) :
  Cli.scan arg = Some (v, EmptyString) -> 0 <= v <= Cli.LONG_MAX ->
  Cli.calls (Cli.main [prog; arg]) = [v] /\
  Cli.status (Cli.main [prog; arg]) = Done Cli.EXIT_SUCCESS.
Proof.
  intros Hscan Hv.
  destruct (main_on_number prog arg v) as (r & -> & _); [| exact Hv | now split].
  pose proof (strtol_spec arg) as Hs. rewrite Hscan in Hs.
  destruct Hs as [[_ Hs] | [Hout _]]; [exact Hs |].
  change Cli.LONG_MIN with (-9223372036854775808) in Hout. lia.
Qed.

(** X11: an argument made of decimal digits, the first of them not 0,
    that writes a number up to [LONG_MAX] makes [main] call [ispowerful]
    on the number the digits write in base 10, and end with the success
    status. *)
Theorem main_decimal (prog : string) (d : nat) (ds : list nat) :
  (1 <= d <= 9)%nat -> Forall (fun x => (x <= 9)%nat) ds ->
  Numeral.value 10 (d :: ds) <= Cli.LONG_MAX ->
  Cli.calls (Cli.main [prog; Numeral.numeral (d :: ds)]) =
    [Numeral.value 10 (d :: ds)] /\
  Cli.status (Cli.main [prog; Numeral.numeral (d :: ds)]) =
    Done Cli.EXIT_SUCCESS.
Proof.
  intros Hd Hds Hmax.
  apply main_on_scanned; [now apply scan_decimal |].
  split; [| exact Hmax]. apply value_from_nonneg; lia.
Qed.

Lemma main_decimal_972 :
  ((1 <= 9 <= 9)%nat /\ Forall (fun x => (x <= 9)%nat) [7; 2]%nat /\
   Numeral.value 10 [9; 7; 2]%nat <= Cli.LONG_MAX) /\
  Cli.calls (Cli.main ["ispowerful"%string; Numeral.numeral [9; 7; 2]%nat]) =
    [Numeral.value 10 [9; 7; 2]%nat] /\
  Cli.status (Cli.main ["ispowerful"%string; Numeral.numeral [9; 7; 2]%nat]) =
    Done Cli.EXIT_SUCCESS.
Proof.
  assert (H1 : (1 <= 9 <= 9)%nat) by lia.
  assert (H2 : Forall (fun x => (x <= 9)%nat) [7; 2]%nat)
    by (repeat constructor).
  assert (H3 : Numeral.value 10 [9; 7; 2]%nat <= Cli.LONG_MAX)
    by discriminate.
  split; [split; [exact H1 | split; [exact H2 | exact H3]] |].
  exact (main_decimal "ispowerful"%string 9 [7; 2]%nat H1 H2 H3).
Defined.

Example numeral_0100 :
  Numeral.numeral [0; 1; 0; 0]%nat = "0100"%string /\
  Numeral.value 8 [1; 0; 0]%nat = 64 /\
  Numeral.numeral [9; 7; 2]%nat = "972"%string /\
  Numeral.value 10 [9; 7; 2]%nat = 972.
Proof. repeat split. Qed.

(* ================================================================= *)
(** ** The test program *)

Lemma result_from_fuel (fuel : nat) (n v : Z) :
  result (ispowerful_fuel fuel n) = Done v -> (fuel <= 64)%nat ->
  result (ispowerful n) = Done v.
Proof.
  intros H Hle. destruct (ispowerful_fuel fuel n) as [l o] eqn:E.
  unfold result in H. cbn [snd] in H. subst o.
  now rewrite (ispowerful_from_fuel fuel n l v E Hle).
Qed.

(** What [ispowerful] returns on an [unsigned long int]: -1 on 0, and 1
    or 0 elsewhere. *)
Lemma result_cases (x : Z) :
  0 <= x < modulus ->
  x = 0 /\ result (ispowerful x) = Done (-1) \/
  1 <= x /\ powerful x /\ result (ispowerful x) = Done 1 \/
  1 <= x /\ ~ powerful x /\ result (ispowerful x) = Done 0.
Proof.
  intros Hx.
  destruct (ispowerful_done (fuel_for x) x Hx (Nat.le_refl _))
    as (log & v & Hrun & Hcl).
  unfold ispowerful. rewrite Hrun. unfold result. cbn [snd].
  destruct Hcl as [[-> ->] | [H1 [[-> Hp] | [-> Hp]]]]; auto.
Qed.

(** A table passes when [ispowerful], run with 64 rounds for each loop,
    returns what the assertion wants on each entry. *)
Lemma check_all_passes (assert : Z -> Z -> option TestC.message)
      (table : list Z) :
  Forall (fun x => exists v, result (ispowerful_fuel 64 x) = Done v /\
                             assert v x = None) table ->
  TestC.check_all assert table = Done None.
Proof.
  induction 1 as [| x table (v & Hv & Ha) _ IH]; [reflexivity |].
  cbn [TestC.check_all].
  now rewrite (result_from_fuel 64 x v Hv (Nat.le_refl _)), Ha.
Qed.

Ltac table_entry :=
  eexists; split; [vm_compute; reflexivity | reflexivity].

(** X14: the test program of the repository passes: on its tables it
    writes [TESTS PASSED] and ends with the success status. *)
Theorem test_main_passes :
  TestC.main = TestC.mkReport [TestC.TestsPassed] (Done Cli.EXIT_SUCCESS).
Proof.
  unfold TestC.main, TestC.run_tests.
  rewrite (check_all_passes TestC.assertTrue TestC.powerful)
    by (unfold TestC.powerful; repeat (constructor; [table_entry |]);
        constructor).
  rewrite (check_all_passes TestC.assertFalse TestC.notpowerful)
    by (unfold TestC.notpowerful; repeat (constructor; [table_entry |]);
        constructor).
  reflexivity.
Qed.

(* ================================================================= *)
(** ** How many candidates are tested *)

Lemma tested_in (l : list event) (d : Z) :
  In d (tested l) -> exists r, In (Trial d r) l.
Proof.
  induction l as [| [d' r' | d' r'] l IH]; cbn [tested]; intros H.
  - contradiction.
  - destruct (IH H) as (r & Hr). exists r. now right.
  - destruct H as [<- | H].
    + exists r'. now left.
    + destruct (IH H) as (r & Hr). exists r. now right.
Qed.

(** X15: on an input below 18446744030759878681 the wheel phase tests
    at most [(sqrt n + 1) / 3] candidates: three times their number is
    at most the integer square root of the input plus 1. *)
Theorem tested_at_most_root (n : Z) (fuel : nat) :
  1 <= n < 18446744030759878681 -> (fuel_for n <= fuel)%nat ->
  3 * Z.of_nat (List.length (tested (trace (ispowerful_fuel fuel n))))
  <= Z.sqrt n + 1.
Proof.
  intros Hn Hfuel.
  pose proof (ispowerful_within_root n fuel Hn Hfuel) as Hall.
  rewrite Forall_forall in Hall.
  destruct (ispowerful_spec fuel n ltac:(rewrite modulus_eq; lia) Hfuel)
    as (log & v & Hrun & _ & Ht & _).
  rewrite Hrun in *. unfold trace in *. cbn [fst] in *.
  remember (List.length (tested log)) as len eqn:El.
  pose proof (Z.sqrt_nonneg n) as Hs.
  destruct len as [| m]; [lia |].
  destruct (even_or_odd m) as (k & Hk).
  assert (Hin : In (candidate (2 * k)) (tested log)).
  { rewrite Ht. unfold candidates. apply in_map. apply in_seq.
    clear - Hk. lia. }
  destruct (tested_in log _ Hin) as (r & Hr).
  rewrite candidate_even in Hr.
  pose proof (Hall _ Hr) as Hsq. unfold Events.within_root in Hsq.
  assert (Hle : 6 * Z.of_nat k + 5 <= Z.sqrt n).
  { apply Z.sqrt_le_square; [lia | lia |]. apply Hsq. clear. euclid. }
  lia.
Qed.

Lemma tested_at_most_root_52441 :
  (1 <= 52441 < 18446744030759878681 /\
   (fuel_for 52441 <= fuel_for 52441)%nat) /\
  3 * Z.of_nat
        (List.length
           (tested (trace (ispowerful_fuel (fuel_for 52441) 52441))))
  <= Z.sqrt 52441 + 1.
Proof.
  assert (Hn : 1 <= 52441 < 18446744030759878681) by lia.
  assert (Hf : (fuel_for 52441 <= fuel_for 52441)%nat) by lia.
  split; [split; [exact Hn | exact Hf] |].
  exact (tested_at_most_root 52441 (fuel_for 52441) Hn Hf).
Defined.

(* ================================================================= *)
(** ** The order of comparisons and tests *)







(* ================================================================= *)
(** ** What [main] turns away and what it lets through *)



(** X12: an argument made of a 0 followed by digits from 0 to 7 is read
    in base 8.  When the number the digits write in base 8 is at most
    [LONG_MAX], [main] calls [ispowerful] on it, so that [0100] is tested
    as 64, and ends with the success status; when it is above
    [LONG_MAX], [main] writes that the number is too large, calls nothing
    and ends with the failure status. *)
Theorem main_octal (prog : string) (ds : list nat) :
  Forall (fun x => (x <= 7)%nat) ds ->
  (Numeral.value 8 ds <= Cli.LONG_MAX ->
   Cli.calls (Cli.main [prog; Numeral.numeral (0%nat :: ds)]) =
     [Numeral.value 8 ds] /\
   Cli.status (Cli.main [prog; Numeral.numeral (0%nat :: ds)]) =
     Done Cli.EXIT_SUCCESS) /\
  (Cli.LONG_MAX < Numeral.value 8 ds ->
   Cli.main [prog; Numeral.numeral (0%nat :: ds)] =
     Cli.mkRun [Cli.TooLarge] [] (Done Cli.EXIT_FAILURE)).
Proof.
  intros Hds. split.
  - intros Hmax.
    apply main_on_scanned; [now apply scan_octal |].
    split; [| exact Hmax]. apply value_from_nonneg; lia.
  - intros Hbig. unfold Cli.main, Cli.strtol. cbn [List.length nth].
    change (negb (Z.of_nat 2 =? 2)) with false. cbv iota.
    rewrite (scan_octal ds Hds).
    destruct (Z.ltb_spec Cli.LONG_MAX (Numeral.value 8 ds)) as [_ | H];
      [reflexivity | lia].
Qed.

Lemma main_octal_0100 :
  Forall (fun x => (x <= 7)%nat) [1; 0; 0]%nat /\
  (Numeral.value 8 [1; 0; 0]%nat <= Cli.LONG_MAX ->
   Cli.calls (Cli.main ["ispowerful"%string; Numeral.numeral [0; 1; 0; 0]%nat]) =
     [Numeral.value 8 [1; 0; 0]%nat] /\
   Cli.status (Cli.main ["ispowerful"%string; Numeral.numeral [0; 1; 0; 0]%nat]) =
     Done Cli.EXIT_SUCCESS) /\
  (Cli.LONG_MAX < Numeral.value 8 [1; 0; 0]%nat ->
   Cli.main ["ispowerful"%string; Numeral.numeral [0; 1; 0; 0]%nat] =
     Cli.mkRun [Cli.TooLarge] [] (Done Cli.EXIT_FAILURE)).
Proof.
  assert (H1 : Forall (fun x => (x <= 7)%nat) [1; 0; 0]%nat)
    by (repeat constructor).
  split; [exact H1 |].
  exact (main_octal "ispowerful"%string [1; 0; 0]%nat H1).
Defined.

(* ================================================================= *)
(** ** The verdict of the test program *)

Lemma check_all_true (table : list Z) :
  Forall (fun x => 0 <= x < modulus) table ->
  (TestC.check_all TestC.assertTrue table = Done None /\
   Forall (fun x => x = 0 \/ powerful x) table) \/
  (exists pre x post,
      table = pre ++ x :: post /\
      Forall (fun x => x = 0 \/ powerful x) pre /\
      1 <= x /\ ~ powerful x /\
      TestC.check_all TestC.assertTrue table =
        Done (Some (TestC.ShouldBeTrue x))).
Proof.
  induction 1 as [| x table Hx _ IH]; [left; split; [reflexivity | constructor] |].
  cbn [TestC.check_all].
  assert (Hstep : x = 0 \/ powerful x ->
    (TestC.check_all TestC.assertTrue table = Done None /\
     Forall (fun x => x = 0 \/ powerful x) (x :: table)) \/
    (exists pre y post,
        x :: table = pre ++ y :: post /\
        Forall (fun x => x = 0 \/ powerful x) pre /\
        1 <= y /\ ~ powerful y /\
        TestC.check_all TestC.assertTrue table =
          Done (Some (TestC.ShouldBeTrue y)))).
  { intros Hok. destruct IH as [[E Hall] | (pre & y & post & -> & Hpre & Hy & Hny & E)].
    - left. split; [exact E | now constructor].
    - right. exists (x :: pre), y, post.
      repeat split; try assumption. now constructor. }
  destruct (result_cases x Hx) as [[-> E] | [(H1 & Hp & E) | (H1 & Hp & E)]];
    rewrite E; cbn [TestC.assertTrue Z.eqb].
  - apply Hstep. now left.
  - apply Hstep. now right.
  - right. exists [], x, table. repeat split; try assumption. constructor.
Qed.

Lemma check_all_false (table : list Z) :
  Forall (fun x => 0 <= x < modulus) table ->
  (TestC.check_all TestC.assertFalse table = Done None /\
   Forall (fun x => 1 <= x /\ ~ powerful x) table) \/
  (exists pre x post,
      table = pre ++ x :: post /\
      Forall (fun x => 1 <= x /\ ~ powerful x) pre /\
      (x = 0 \/ powerful x) /\
      TestC.check_all TestC.assertFalse table =
        Done (Some (TestC.ShouldBeFalse x))).
Proof.
  induction 1 as [| x table Hx _ IH]; [left; split; [reflexivity | constructor] |].
  cbn [TestC.check_all].
  assert (Hfail : x = 0 \/ powerful x ->
    exists pre y post,
      x :: table = pre ++ y :: post /\
      Forall (fun x => 1 <= x /\ ~ powerful x) pre /\
      (y = 0 \/ powerful y) /\
      Done (Some (TestC.ShouldBeFalse x)) =
        Done (A := option TestC.message) (Some (TestC.ShouldBeFalse y))).
  { intros Hbad. exists [], x, table. repeat split; try assumption. constructor. }
  destruct (result_cases x Hx) as [[-> E] | [(H1 & Hp & E) | (H1 & Hp & E)]];
    rewrite E; cbn [TestC.assertFalse Z.eqb negb].
  - right. apply Hfail. now left.
  - right. apply Hfail. now right.
  - destruct IH as [[E' Hall] | (pre & y & post & -> & Hpre & Hy & E')].
    + left. split; [exact E' | constructor; [now split | exact Hall]].
    + right. exists (x :: pre), y, post.
      repeat split; try assumption. constructor; [now split | exact Hpre].
Qed.

Lemma in_unsigned_long (table : list Z) :
  Forall (fun x => 0 <= x <= Cli.LONG_MAX) table ->
  Forall (fun x => 0 <= x < modulus) table.
Proof.
  apply Forall_impl. intros x Hx. rewrite modulus_eq.
  change Cli.LONG_MAX with 9223372036854775807 in Hx. lia.
Qed.

(** X13: for any tables with entries from 0 to [LONG_MAX] in place of the
    three local variables, the test program ends in one of four ways.
    It writes [TESTS PASSED] and ends with the success status, when every
    entry of [powerful] is powerful or 0, every entry of [notpowerful] is
    positive and not powerful, and [invalid] is 0.  Otherwise it ends
    with the failure status and the message of the first assertion that
    fails: [Should be true] with the first entry of [powerful] that is
    positive and not powerful; if there is none, [Should be false] with
    the first entry of [notpowerful] that is 0 or powerful; if there is
    none either, [Should raise error] with [invalid].  [assertTrue] takes
    the -1 that [ispowerful] returns on 0 for true. *)
Theorem run_tests_verdict (yes no : list Z) (invalid : Z) :
  Forall (fun x => 0 <= x <= Cli.LONG_MAX) yes ->
  Forall (fun x => 0 <= x <= Cli.LONG_MAX) no ->
  0 <= invalid <= Cli.LONG_MAX ->
  (Forall (fun x => x = 0 \/ powerful x) yes /\
   Forall (fun x => 1 <= x /\ ~ powerful x) no /\
   invalid = 0 /\
   TestC.run_tests yes no invalid =
     TestC.mkReport [TestC.TestsPassed] (Done Cli.EXIT_SUCCESS)) \/
  (exists pre x post,
      yes = pre ++ x :: post /\
      Forall (fun x => x = 0 \/ powerful x) pre /\
      1 <= x /\ ~ powerful x /\
      TestC.run_tests yes no invalid =
        TestC.mkReport [TestC.ShouldBeTrue x] (Done Cli.EXIT_FAILURE)) \/
  (Forall (fun x => x = 0 \/ powerful x) yes /\
   exists pre x post,
      no = pre ++ x :: post /\
      Forall (fun x => 1 <= x /\ ~ powerful x) pre /\
      (x = 0 \/ powerful x) /\
      TestC.run_tests yes no invalid =
        TestC.mkReport [TestC.ShouldBeFalse x] (Done Cli.EXIT_FAILURE)) \/
  (Forall (fun x => x = 0 \/ powerful x) yes /\
   Forall (fun x => 1 <= x /\ ~ powerful x) no /\
   invalid <> 0 /\
   TestC.run_tests yes no invalid =
     TestC.mkReport [TestC.ShouldRaiseError invalid] (Done Cli.EXIT_FAILURE)).
Proof.
  intros Hyes Hno Hinv. unfold TestC.run_tests.
  destruct (check_all_true yes (in_unsigned_long yes Hyes))
    as [[-> Hall1] | (pre & x & post & E & Hpre & Hx & Hnx & ->)].
  2: { right. left. exists pre, x, post. repeat split; assumption. }
  destruct (check_all_false no (in_unsigned_long no Hno))
    as [[-> Hall2] | (pre & x & post & E & Hpre & Hx & ->)].
  2: { right. right. left. split; [exact Hall1 |].
       exists pre, x, post. repeat split; assumption. }
  assert (Hr : 0 <= invalid < modulus).
  { rewrite modulus_eq. change Cli.LONG_MAX with 9223372036854775807 in Hinv.
    lia. }
  destruct (result_cases invalid Hr)
    as [[-> E] | [(H1 & Hp & E) | (H1 & Hp & E)]]; rewrite E.
  - left. repeat split; assumption.
  - right. right. right. repeat split; try assumption. lia.
  - right. right. right. repeat split; try assumption. lia.
Qed.

Lemma run_tests_verdict_5_7_4 :
  (Forall (fun x => 0 <= x <= Cli.LONG_MAX) [0; 5; 7; 4] /\
   Forall (fun x => 0 <= x <= Cli.LONG_MAX) [2] /\
   0 <= 0 <= Cli.LONG_MAX) /\
  ((Forall (fun x => x = 0 \/ powerful x) [0; 5; 7; 4] /\
    Forall (fun x => 1 <= x /\ ~ powerful x) [2] /\
    0 = 0 /\
    TestC.run_tests [0; 5; 7; 4] [2] 0 =
      TestC.mkReport [TestC.TestsPassed] (Done Cli.EXIT_SUCCESS)) \/
   (exists pre x post,
       [0; 5; 7; 4] = pre ++ x :: post /\
       Forall (fun x => x = 0 \/ powerful x) pre /\
       1 <= x /\ ~ powerful x /\
       TestC.run_tests [0; 5; 7; 4] [2] 0 =
         TestC.mkReport [TestC.ShouldBeTrue x] (Done Cli.EXIT_FAILURE)) \/
   (Forall (fun x => x = 0 \/ powerful x) [0; 5; 7; 4] /\
    exists pre x post,
       [2] = pre ++ x :: post /\
       Forall (fun x => 1 <= x /\ ~ powerful x) pre /\
       (x = 0 \/ powerful x) /\
       TestC.run_tests [0; 5; 7; 4] [2] 0 =
         TestC.mkReport [TestC.ShouldBeFalse x] (Done Cli.EXIT_FAILURE)) \/
   (Forall (fun x => x = 0 \/ powerful x) [0; 5; 7; 4] /\
    Forall (fun x => 1 <= x /\ ~ powerful x) [2] /\
    0 <> 0 /\
    TestC.run_tests [0; 5; 7; 4] [2] 0 =
      TestC.mkReport [TestC.ShouldRaiseError 0] (Done Cli.EXIT_FAILURE))).
Proof.
  assert (Hr : forall x, 0 <= x <= 100 -> 0 <= x <= Cli.LONG_MAX)
    by (intros x Hx; change Cli.LONG_MAX with 9223372036854775807; lia).
  assert (H1 : Forall (fun x => 0 <= x <= Cli.LONG_MAX) [0; 5; 7; 4])
    by (repeat constructor; apply Hr; lia).
  assert (H2 : Forall (fun x => 0 <= x <= Cli.LONG_MAX) [2])
    by (repeat constructor; apply Hr; lia).
  assert (H3 : 0 <= 0 <= Cli.LONG_MAX) by (apply Hr; lia).
  split; [split; [exact H1 | split; [exact H2 | exact H3]] |].
  exact (run_tests_verdict [0; 5; 7; 4] [2] 0 H1 H2 H3).
Defined.

(** On the tables of the witness the test program stops at 5, the first
    entry that is not powerful, after it has let 0 through. *)
Example run_tests_first_failure :
  TestC.run_tests [0; 5; 7; 4] [2] 0 =
  TestC.mkReport [TestC.ShouldBeTrue 5] (Done Cli.EXIT_FAILURE).
Proof. vm_compute. reflexivity. Qed.
